(** * The settings application of OS.js: path resolver, field dispatch, view model

    A shallow embedding of [src/index.js] and of its second copy
    [src/unnamed/part_000].  The two copies share [fieldMap], [resolve],
    [resolveSetting] and the [save], [refresh] and [setLoading] actions; they
    differ in [resolveNewSetting], where only [part_000] passes the value
    through [resolveValue].  Definitions that differ take the copy as an
    argument. *)

From Stdlib Require Import List String Ascii ZArith Bool Arith Lia.
From Stdlib Require Import DecimalString Permutation.
Import ListNotations.
Open Scope string_scope.

(** ** Values

    The values a configuration tree is made of.  An object is the list of its
    own properties in insertion order; a lookup takes the first entry of a
    key, so a list with a repeated key behaves as the object holding the first
    one.  A key [__proto__] in that list (only [JSON.parse] or
    [defineProperty] make such an own property) is read as any other key;
    an assignment never makes one.
    Numbers are the integer-valued ones.  [VHost] stands for an object or
    function that the runtime supplies (a member of a prototype object, for
    instance); the program never looks inside one. *)

#[local] Set Warnings "-register-all".

Inductive value : Type :=
| VUndefined
| VNull
| VBool (b : bool)
| VNum (n : Z)
| VStr (s : string)
| VArr (elems : list value)
| VObj (props : list (string * value))
| VHost (name : string).

(** The two copies of the source file. *)
Inductive copy : Type := index_js | part_000.

(** The class of a value decides which prototype chain a property read
    falls back to; [undefined] and [null] have none. *)
Inductive kind : Type :=
| KBoolean | KNumber | KString | KArray | KObject | KHost (name : string).

Definition kind_of (v : value) : option kind :=
  match v with
  | VUndefined | VNull => None
  | VBool _ => Some KBoolean
  | VNum _ => Some KNumber
  | VStr _ => Some KString
  | VArr _ => Some KArray
  | VObj _ => Some KObject
  | VHost name => Some (KHost name)
  end.

Definition is_mapping (v : value) : bool :=
  match v with VObj _ => true | _ => false end.

Definition is_undefined (v : value) : bool :=
  match v with VUndefined => true | _ => false end.

(** ToBoolean, as [||] applies it. *)
Definition truthy (v : value) : bool :=
  match v with
  | VUndefined | VNull => false
  | VBool b => b
  | VNum n => negb (n =? 0)%Z
  | VStr s => negb (s =? "")
  | VArr _ | VObj _ | VHost _ => true
  end.

(** ** Own properties *)

Fixpoint assoc {A : Type} (k : string) (props : list (string * A)) : option A :=
  match props with
  | [] => None
  | (k', x) :: rest => if k =? k' then Some x else assoc k rest
  end.

(** [o[k] = x] on the own properties of [o]: an existing key keeps its
    place, a new one goes last. *)
Fixpoint assign (props : list (string * value)) (k : string) (x : value)
  : list (string * value) :=
  match props with
  | [] => [(k, x)]
  | (k', y) :: rest =>
      if k =? k' then (k, x) :: rest else (k', y) :: assign rest k x
  end.

(** The key of the array index [i]: its decimal numeral. *)
Definition index_key (i : nat) : string :=
  NilZero.string_of_uint (Nat.to_uint i).

Fixpoint indexed (i : nat) (l : list value) : list (string * value) :=
  match l with
  | [] => []
  | x :: rest => (index_key i, x) :: indexed (S i) rest
  end.

Definition chars (s : string) : list value :=
  map (fun c => VStr (String c EmptyString)) (list_ascii_of_string s).

(** The own enumerable properties, which [Object.assign] copies. *)
Definition own_enumerable (v : value) : list (string * value) :=
  match v with
  | VObj props => props
  | VArr l => indexed 0 l
  | VStr s => indexed 0 (chars s)
  | _ => []
  end.

(** All own properties: strings and arrays also own [length]. *)
Definition own_props (v : value) : list (string * value) :=
  match v with
  | VArr l => indexed 0 l ++ [("length", VNum (Z.of_nat (List.length l)))]
  | VStr s =>
      indexed 0 (chars s) ++ [("length", VNum (Z.of_nat (String.length s)))]
  | _ => own_enumerable v
  end.

Definition own (v : value) (k : string) : option value :=
  assoc k (own_props v).

(** [Object.assign({}, tree)]: every own enumerable property of the tree is
    assigned to a new object.  Assigning to [__proto__] runs the setter that
    [Object.prototype] has for it: no own property is made, and the value
    becomes the prototype of the copy when it is an object or [null], and is
    dropped otherwise.  [proto_set] is [None] as long as the copy has the
    prototype it was made with, [Object.prototype]. *)
Record copied : Type := {
  own_copied : list (string * value);
  proto_set : option value
}.

Definition is_object_or_null (v : value) : bool :=
  match v with
  | VNull | VArr _ | VObj _ | VHost _ => true
  | _ => false
  end.

Definition Object_assign (tree : value) : copied :=
  {| own_copied :=
       List.filter (fun kv => negb (fst kv =? "__proto__"))
         (own_enumerable tree);
     proto_set :=
       match assoc "__proto__" (own_enumerable tree) with
       | Some p => if is_object_or_null p then Some p else None
       | None => None
       end |}.

(** ** Paths *)

(** [key.split(/\./g)], named apart from the [split] of lists: the segments
    between the dots; never empty, and the empty string has the one segment
    [""]. *)
Fixpoint split_dots (key : string) : list string :=
  match key with
  | EmptyString => [EmptyString]
  | String c rest =>
      if Ascii.eqb c "."%char then EmptyString :: split_dots rest
      else match split_dots rest with
           | seg :: segs => String c seg :: segs
           | [] => [String c EmptyString]
           end
  end.

(** What the specification calls the value at a path: every segment is an
    own key of the mapping reached so far. *)
Fixpoint lookup_path (tree : value) (segs : list string) : option value :=
  match segs with
  | [] => Some tree
  | k :: rest =>
      match tree with
      | VObj props =>
          match assoc k props with
          | Some child => lookup_path child rest
          | None => None
          end
      | _ => None
      end
  end.

(** ** The runtime's prototype objects

    The members of [Object.prototype] in a browser (ECMAScript 5.1, section
    15.2.4 and annex B). *)
Definition object_prototype_members : list string :=
  [ "constructor"; "toString"; "toLocaleString"; "valueOf";
    "hasOwnProperty"; "isPrototypeOf"; "propertyIsEnumerable";
    "__proto__"; "__defineGetter__"; "__defineSetter__";
    "__lookupGetter__"; "__lookupSetter__" ].

(** A runtime in which every value inherits the members of
    [Object.prototype] and nothing else. *)
Definition ecma_proto_get (c : kind) (k : string) : value :=
  if existsb (String.eqb k) object_prototype_members
  then VHost ("Object.prototype." ++ k)
  else VUndefined.

Section Runtime.

(** [proto_get c k] is what a value of class [c] finds for [k] along its
    prototype chain, [VUndefined] when the chain has no such member. *)
Variable proto_get : kind -> string -> value.

(** [v[k]]: [None] is the TypeError for [undefined] and [null]; an own
    property hides an inherited one. *)
Definition get (v : value) (k : string) : option value :=
  match kind_of v with
  | None => None
  | Some c =>
      Some (match own v k with
            | Some x => x
            | None => proto_get c k
            end)
  end.

(** [segs.reduce((result, key) => result[key], start)]. *)
Fixpoint reduce (segs : list string) (result : value) : option value :=
  match segs with
  | [] => Some result
  | key :: rest =>
      match get result key with
      | Some next => reduce rest next
      | None => None
      end
  end.

(** What the copy made by [Object.assign] finds along its prototype chain.
    Through a prototype [p] that the copy was given, it finds the own
    properties of [p] and then the members of the chain of [p]; the getter
    of [__proto__] on that chain answers with the prototype of the object
    that is read, which is [p].  A [null] prototype leaves nothing to
    find. *)
Definition inherited (a : copied) (k : string) : value :=
  match proto_set a with
  | None => proto_get KObject k
  | Some p =>
      match kind_of p with
      | None => VUndefined
      | Some c =>
          match own p k with
          | Some x => x
          | None => if k =? "__proto__" then p else proto_get c k
          end
      end
  end.

(** [copy[k]] on the copy made by [Object.assign], which is an object: the
    read never faults. *)
Definition get_copied (a : copied) (k : string) : value :=
  match assoc k (own_copied a) with
  | Some x => x
  | None => inherited a k
  end.

(** [segs.reduce((result, key) => result[key], Object.assign({}, tree))]:
    the first read is on the copy, the others on what the reads give.  The
    segments of a key are never none; without a segment the result would be
    the copy itself. *)
Definition reduce_copied (segs : list string) (start : copied)
  : option value :=
  match segs with
  | [] => Some (VObj (own_copied start))
  | key :: rest => reduce rest (get_copied start key)
  end.

(** [resolve]: the [try] block is the walk, whose [None] is the exception
    the [catch] turns into [defaultValue]. *)
Definition resolve (tree : value) (key : string) (defaultValue : value)
  : value :=
  match reduce_copied (split_dots key) (Object_assign tree) with
  | Some val => if is_undefined val then defaultValue else val
  | None => defaultValue
  end.

(** [resolveSetting(settings, defaults)(key)]; the inner call leaves its
    third argument out. *)
Definition resolveSetting (settings defaults : value) (key : string) : value :=
  resolve settings key (resolve defaults key VUndefined).

End Runtime.

(** ** Deep merge *)

(** Modelled from the spec: [merge], the default export of the [deepmerge]
    package that both copies import; the package is not part of the source
    files.  Section 4.1 gives its contract: nested mapping values are merged
    key by key, recursively; a scalar or an array replaces the prior value
    wholesale; the result is a new tree.  [merge_each] goes through the
    source's keys, starting from the target's properties. *)
Definition merge_each (merge : value -> value -> value)
  (tprops : list (string * value))
  : list (string * value) -> list (string * value) -> list (string * value) :=
  fix each (sprops dest : list (string * value)) : list (string * value) :=
    match sprops with
    | [] => dest
    | (k, sv) :: rest =>
        each rest
          (assign dest k
             (match assoc k tprops with
              | Some tv => merge tv sv
              | None => sv
              end))
    end.

Fixpoint merge (target source : value) {struct source} : value :=
  match source with
  | VObj sprops =>
      match target with
      | VObj tprops => VObj (merge_each merge tprops sprops tprops)
      | _ => source
      end
  | _ => source
  end.

(** ** The view state and what an action returns *)

Record ViewState : Type := {
  loading : bool;
  locales : value;
  themes : value;
  defaults : value;
  settings : value
}.

(** A partial state, as an action returns it: the fields it names. *)
Record partial : Type := {
  p_loading : option bool;
  p_locales : option value;
  p_themes : option value;
  p_defaults : option value;
  p_settings : option value
}.

Definition or_keep {A : Type} (new : option A) (old : A) : A :=
  match new with Some x => x | None => old end.

(** Modelled from the spec: the [app] runtime of the [hyperapp] package,
    which is not part of the source files.  It folds the partial state an
    action returns into the state: the named fields are replaced, the others
    kept (sections 3 and 4.4: an update replaces [settings] in the view
    state). *)
Definition merge_state (state : ViewState) (p : partial) : ViewState :=
  {| loading := or_keep (p_loading p) (loading state);
     locales := or_keep (p_locales p) (locales state);
     themes := or_keep (p_themes p) (themes state);
     defaults := or_keep (p_defaults p) (defaults state);
     settings := or_keep (p_settings p) (settings state) |}.

(** ** Writing a path *)

(** [resolveValue] of [part_000]; [===] against the string ['true']. *)
Definition resolveValue (key : string) (val : value) : value :=
  if key =? "desktop.iconview.enabled"
  then VBool (match val with VStr s => s =? "true" | _ => false end)
  else val.

(** What the last turn of the loop assigns: [value] in [index.js],
    [resolveValue(key, value)] in [part_000]. *)
Definition leaf_value (c : copy) (key : string) (val : value) : value :=
  match c with index_js => val | part_000 => resolveValue key val end.

(** The loop of [resolveNewSetting] writes through [previous], an alias of a
    node inside [object].  The state is the tree of own properties under
    [object] and the path from [object] to the node [previous] names;
    [previous] is [None] once it names an object that is no own property
    below [object]. *)
Record builder : Type := {
  object : value;
  previous : option (list string)
}.

(** [node[k] = x] for the node at [path] below [root]. *)
Fixpoint assign_at (root : value) (path : list string) (k : string) (x : value)
  : value :=
  match root with
  | VObj props =>
      match path with
      | [] => VObj (assign props k x)
      | p :: rest =>
          match assoc p props with
          | Some child => VObj (assign props p (assign_at child rest k x))
          | None => root
          end
      end
  | _ => root
  end.

(** One turn of the loop.  Assigning to [__proto__] sets the prototype of
    the node and creates no own property; [previous] then names the new
    prototype, outside the tree of own properties. *)
Definition loop_body (c : copy) (key : string) (val : value)
  (keys : list string) (i : nat) (st : builder) : builder :=
  let j := nth i keys "" in
  let last := (List.length keys - 1 <=? i)%nat in
  let x := if last then leaf_value c key val else VObj [] in
  match previous st with
  | Some path =>
      if j =? "__proto__"
      then {| object := object st; previous := None |}
      else {| object := assign_at (object st) path j x;
              previous := Some (path ++ [j])%list |}
  | None => st
  end.

(** [resolveNewSetting(state)(key, value)]. *)
Definition resolveNewSetting (c : copy) (state : ViewState)
  (key : string) (val : value) : partial :=
  let keys := split_dots key in
  let built :=
    fold_left (fun st i => loop_body c key val keys i st)
      (seq 0 (List.length keys))
      {| object := VObj []; previous := Some [] |} in
  {| p_loading := None; p_locales := None; p_themes := None;
     p_defaults := None;
     p_settings := Some (merge (settings state) (object built)) |}.

(** The object the loop builds, by recursion on the segments: one branch,
    cut at the first [__proto__]. *)
Fixpoint skeleton (keys : list string) (leaf : value) : value :=
  match keys with
  | [] => VObj []
  | k :: rest =>
      if k =? "__proto__" then VObj []
      else VObj [(k, match rest with
                     | [] => leaf
                     | _ :: _ => skeleton rest leaf
                     end)]
  end.

(** A branch of single-key objects along [path], ending in [x]. *)
Fixpoint chain (path : list string) (x : value) : value :=
  match path with
  | [] => x
  | k :: rest => VObj [(k, chain rest x)]
  end.

(** [setPath(tree, path, value)] of the specification: the tree an update
    leaves in [settings]. *)
Definition setPath (c : copy) (tree : value) (path : string) (v : value)
  : value :=
  merge tree (skeleton (split_dots path) (leaf_value c path v)).

Definition no_proto_segment (segs : list string) : bool :=
  forallb (fun k => negb (k =? "__proto__")) segs.

(** ** Field dispatch *)

(** The three control builders of [fieldMap]. *)
Inductive strategy : Type := select | dialog | fallback.

Definition fieldMap : list (string * strategy) :=
  [("select", select); ("dialog", dialog); ("fallback", fallback)].

(** What [fields[props.type] || fields.fallback] evaluates to: one of the
    builders, or a member that the table inherits from [Object.prototype]. *)
Inductive callee : Type :=
| Strategy (s : strategy)
| Member (m : value).

(** ** The persistence collaborator and the actions *)

(** The calls the actions make on their collaborators, in order. *)
Inductive effect : Type :=
| SettingsSet (scope : string) (v : value)
| SettingsSave
| ApplySettings
| ConsoleError (error : value).

(** The application between two events: the view state, the number of
    promises of [setSettings] not yet settled, and the calls made so far. *)
Record world : Type := {
  state : ViewState;
  in_flight : nat;
  trace : list effect
}.

Inductive event : Type :=
| CallSave
| CallUpdate (path : string) (val : value)
| CallRefresh (desktop locale : value)
| SaveFulfilled
| SaveRejected (error : value).

Inductive phase : Type := idle | saving.

Definition phase_of (w : world) : phase :=
  if loading (state w) then saving else idle.

(** [getSettings()], given what the settings service answers for the two
    scopes. *)
Definition getSettings (desktop locale : value) : value :=
  VObj [("desktop", desktop); ("locale", locale)].

(** [setLoading: loading => ({loading})]. *)
Definition setLoading (l : bool) : partial :=
  {| p_loading := Some l; p_locales := None; p_themes := None;
     p_defaults := None; p_settings := None |}.

(** [update: ({path, value}) => state => resolveNewSetting(state)(path, value)]. *)
Definition update (c : copy) (path : string) (val : value) (st : ViewState)
  : partial :=
  resolveNewSetting c st path val.

(** [refresh: () => () => ({settings: getSettings()})]. *)
Definition refresh (desktop locale : value) : partial :=
  {| p_loading := None; p_locales := None; p_themes := None;
     p_defaults := None; p_settings := Some (getSettings desktop locale) |}.

(** Modelled from the spec: the runtime calls an action on the current
    state and folds the result into it at once; collaborator calls and
    promises are not touched. *)
Definition act (p : partial) (w : world) : world :=
  {| state := merge_state (state w) p;
     in_flight := in_flight w;
     trace := trace w |}.

Section Application.

Variable proto_get : kind -> string -> value.

Definition field_of (type : string) : callee :=
  match assoc type fieldMap with
  | Some s => Strategy s
  | None =>
      let m := proto_get KObject type in
      if truthy m then Member m else Strategy fallback
  end.

(** [Item] of [index.js] and [item] of [part_000] apply the callee to the
    props and then to [(state, actions)].  [Some s]: the control is built by
    [s].  [None]: a TypeError; no member of [Object.prototype] can be applied
    that way. *)
Definition Item (type : string) : option strategy :=
  match field_of type with
  | Strategy s => Some s
  | Member _ => None
  end.

(** [setSettings(settings)]: the calls on the settings service, [None] when
    reading [settings.desktop] raises. *)
Definition setSettings (tree : value) : option (list effect) :=
  match get proto_get tree "desktop", get proto_get tree "locale" with
  | Some d, Some l =>
      Some [SettingsSet "osjs/desktop" d; SettingsSet "osjs/locale" l;
            SettingsSave]
  | _, _ => None
  end.

(** The [save] action up to the point where it returns; the two callbacks
    run later, as [settled]. *)
Definition save (w : world) : world :=
  let st := state w in
  if loading st then w
  else
    let w1 := act (setLoading true) w in
    match setSettings (settings st) with
    | Some calls =>
        {| state := state w1;
           in_flight := S (in_flight w1);
           trace := (trace w1 ++ calls)%list |}
    | None => w1
    end.

(** The [then] callback ([error = None]) or the [catch] callback of a save
    in flight. *)
Definition settled (error : option value) (w : world) : option world :=
  match in_flight w with
  | O => None
  | S n =>
      let w1 := act (setLoading false) w in
      Some {| state := state w1;
              in_flight := n;
              trace := (trace w1 ++
                        [match error with
                         | None => ApplySettings
                         | Some e => ConsoleError e
                         end])%list |}
  end.

(** One event; [None] when a settlement arrives with no save in flight. *)
Definition step (c : copy) (w : world) (e : event) : option world :=
  match e with
  | CallSave => Some (save w)
  | CallUpdate path val => Some (act (update c path val (state w)) w)
  | CallRefresh desktop locale => Some (act (refresh desktop locale) w)
  | SaveFulfilled => settled None w
  | SaveRejected error => settled (Some error) w
  end.

Fixpoint run (c : copy) (w : world) (events : list event) : option world :=
  match events with
  | [] => Some w
  | e :: rest =>
      match step c w e with
      | Some w' => run c w' rest
      | None => None
      end
  end.

End Application.

(** [initialState], given what the collaborators answer when the window is
    rendered. *)
Definition initialState (locales0 themes0 desktop_defaults locale_defaults
  desktop locale : value) : ViewState :=
  {| loading := false;
     locales := locales0;
     themes := themes0;
     defaults := VObj [("desktop", desktop_defaults);
                       ("locale", locale_defaults)];
     settings := getSettings desktop locale |}.

(** The application as [app(initialState, ...)] starts it. *)
Definition start (st : ViewState) : world :=
  {| state := st; in_flight := 0; trace := [] |}.

(** ** Notions the properties are stated with *)

(** The value [merge] leaves under a key of the source. *)
Definition merged_entry (tprops : list (string * value)) (k : string)
  (sv : value) : value :=
  match assoc k tprops with
  | Some tv => merge tv sv
  | None => sv
  end.

(** The value a tree holds at a path, [undefined] when it holds none. *)
Definition prior (tree : value) (segs : list string) : value :=
  match lookup_path tree segs with
  | Some x => x
  | None => VUndefined
  end.

Fixpoint prefix_of (a b : list string) : bool :=
  match a, b with
  | [], _ => true
  | _ :: _, [] => false
  | x :: a', y :: b' => (x =? y) && prefix_of a' b'
  end.

(** Two paths are disjoint when neither leads through the other. *)
Definition disjoint_paths (a b : list string) : bool :=
  negb (prefix_of a b) && negb (prefix_of b a).

(** What a value supplies by itself for a key, apart from the keys of a
    mapping: an index or [length] of a string or an array, or a member of
    its prototype chain; [undefined] when it supplies nothing, and for
    [undefined] and [null], on which a read faults. *)
Definition supplied_by (proto_get : kind -> string -> value) (u : value)
  (k : string) : value :=
  match kind_of u with
  | None => VUndefined
  | Some c =>
      match (if is_mapping u then None else own u k) with
      | Some x => x
      | None => proto_get c k
      end
  end.

(** The first character of a key is a digit, as in every array index. *)
Definition starts_with_digit (k : string) : bool :=
  match k with
  | EmptyString => false
  | String c _ =>
      existsb (Ascii.eqb c)
        ["0"; "1"; "2"; "3"; "4"; "5"; "6"; "7"; "8"; "9"]%char
  end.

(** At most one save is in flight, and only while [loading] is set. *)
Definition single_flight (w : world) : Prop :=
  (in_flight w <= (if loading (state w) then 1 else 0))%nat.

(** A state with the given working tree and nothing else of note, to try
    the properties on. *)
Definition editing (tree : value) : ViewState :=
  {| loading := false; locales := VObj []; themes := VObj [];
     defaults := VObj []; settings := tree |}.

(** Scalars: the values of a configuration tree that are no trees. *)
Definition is_scalar (v : value) : bool :=
  match v with
  | VNull | VBool _ | VNum _ | VStr _ => true
  | _ => false
  end.

(** A segment has no dot in it. *)
Fixpoint dotless (seg : string) : bool :=
  match seg with
  | EmptyString => true
  | String c rest => negb (Ascii.eqb c "."%char) && dotless rest
  end.

(** The state of a window opened on empty settings and defaults. *)
Definition fresh : ViewState :=
  initialState (VObj []) (VObj []) (VObj []) (VObj []) (VObj []) (VObj []).

(** [segs.join('.')], the inverse of [split_dots]. *)
Fixpoint join_dots (segs : list string) : string :=
  match segs with
  | [] => EmptyString
  | [seg] => seg
  | seg :: rest => seg ++ String "."%char (join_dots rest)
  end.

(** The working tree after [update({path, value})]. *)
Definition updated (c : copy) (st : ViewState) (path : string) (val : value)
  : ViewState :=
  merge_state st (update c path val st).

(** ** The sections and their items *)

(** Where the [choices] function of an item takes its answer from. *)
Inductive choice_source : Type :=
| Fixed (choices : value)
| ThemeStyles
| ThemeIcons
| ThemeSounds
| StateLocales.

(** The two dialogs an item opens: a file chooser and a colour chooser. *)
Inductive dialog_name : Type := file_dialog | color_dialog.

(** An item of a section.  [i_transformValue] is the function of the item
    when it has one ([None] for the fault it may raise); [i_defaultValue] is
    [undefined] for an item that declares none. *)
Record item : Type := {
  i_label : string;
  i_path : string;
  i_type : string;
  i_transformValue : option (value -> option value);
  i_dialog : option dialog_name;
  i_choices : option choice_source;
  i_defaultValue : value
}.

Record section : Type := {
  s_title : string;
  s_items : list item
}.

(** What a field builds, with the value it is bound to. *)
Inductive control : Type :=
| SelectField (shown choices : value)
| DialogField (shown : value)
| TextField (shown : value).

(** All the results of a list of computations, or the first fault. *)
Fixpoint all_or_fault {A : Type} (l : list (option A)) : option (list A) :=
  match l with
  | [] => Some []
  | None :: _ => None
  | Some x :: rest =>
      match all_or_fault rest with
      | Some xs => Some (x :: xs)
      | None => None
      end
  end.

Definition color_style_choices : value :=
  VObj [("color", VStr "Color"); ("cover", VStr "Cover");
        ("contain", VStr "Contain"); ("repeat", VStr "Repeat")].

Definition yes_no_choices : value :=
  VArr [VObj [("label", VStr "Yes"); ("value", VStr "true")];
        VObj [("label", VStr "No"); ("value", VStr "false")]].

Definition font_color_style_choices : value :=
  VObj [("system", VStr "System");
        ("invert", VStr "Inverted background color");
        ("custom", VStr "Custom color")].

Section Sections.

Variable proto_get : kind -> string -> value.

(** [transformValue] of the Image item:
    [value => value ? (typeof value === 'string' ? value : value.path) : value]. *)
Definition transformValue_src (v : value) : option value :=
  if truthy v
  then match v with
       | VStr _ => Some v
       | _ => get proto_get v "path"
       end
  else Some v.

Definition background_items : list item :=
  [ {| i_label := "Image"; i_path := "desktop.background.src";
       i_type := "dialog"; i_transformValue := Some transformValue_src;
       i_dialog := Some file_dialog; i_choices := None;
       i_defaultValue := VUndefined |};
    {| i_label := "Style"; i_path := "desktop.background.style";
       i_type := "select"; i_transformValue := None;
       i_dialog := None; i_choices := Some (Fixed color_style_choices);
       i_defaultValue := VUndefined |};
    {| i_label := "Color"; i_path := "desktop.background.color";
       i_type := "dialog"; i_transformValue := None;
       i_dialog := Some color_dialog; i_choices := None;
       i_defaultValue := VUndefined |} ].

Definition theme_items : list item :=
  [ {| i_label := "Style"; i_path := "desktop.theme";
       i_type := "select"; i_transformValue := None;
       i_dialog := None; i_choices := Some ThemeStyles;
       i_defaultValue := VUndefined |};
    {| i_label := "Icons"; i_path := "desktop.icons";
       i_type := "select"; i_transformValue := None;
       i_dialog := None; i_choices := Some ThemeIcons;
       i_defaultValue := VUndefined |};
    {| i_label := "Sounds"; i_path := "desktop.sounds";
       i_type := "select"; i_transformValue := None;
       i_dialog := None; i_choices := Some ThemeSounds;
       i_defaultValue := VUndefined |} ].

Definition desktop_items : list item :=
  [ {| i_label := "Enable desktop icons";
       i_path := "desktop.iconview.enabled";
       i_type := "select"; i_transformValue := None;
       i_dialog := None; i_choices := Some (Fixed yes_no_choices);
       i_defaultValue := VUndefined |};
    {| i_label := "Font color style";
       i_path := "desktop.iconview.fontColorStyle";
       i_type := "select"; i_transformValue := None;
       i_dialog := None; i_choices := Some (Fixed font_color_style_choices);
       i_defaultValue := VStr "system" |};
    {| i_label := "Custom font color";
       i_path := "desktop.iconview.fontColor";
       i_type := "dialog"; i_transformValue := None;
       i_dialog := Some color_dialog; i_choices := None;
       i_defaultValue := VUndefined |} ].

Definition language_item (label : string) : item :=
  {| i_label := label; i_path := "locale.language";
     i_type := "select"; i_transformValue := None;
     i_dialog := None; i_choices := Some StateLocales;
     i_defaultValue := VUndefined |}.

(** [createSections(core)] of [index.js]. *)
Definition createSections : list section :=
  [ {| s_title := "Background"; s_items := background_items |};
    {| s_title := "Themes"; s_items := theme_items |};
    {| s_title := "Locales"; s_items := [language_item "Language"] |} ].

(** [tabSections] of [part_000]. *)
Definition tabSections : list section :=
  [ {| s_title := "Background"; s_items := background_items |};
    {| s_title := "Themes"; s_items := theme_items |};
    {| s_title := "Desktop"; s_items := desktop_items |};
    {| s_title := "Locales";
       s_items := [language_item "Language (requires restart)"] |} ].

Definition sections (c : copy) : list section :=
  match c with index_js => createSections | part_000 => tabSections end.

(** All the items a copy shows, section after section. *)
Definition items (c : copy) : list item :=
  flat_map s_items (sections c).

(** [getValue(props)]. *)
Definition getValue (i : item) (shown : value) : option value :=
  match i_transformValue i with
  | Some transformValue => transformValue shown
  | None => Some shown
  end.

(** [props.choices(state)]; [None] when it raises: the item has no
    [choices], or [state.themes] is [undefined] or [null]. *)
Definition choices_of (i : item) (st : ViewState) : option value :=
  match i_choices i with
  | None => None
  | Some (Fixed choices) => Some choices
  | Some ThemeStyles => get proto_get (themes st) "styles"
  | Some ThemeIcons => get proto_get (themes st) "icons"
  | Some ThemeSounds => get proto_get (themes st) "sounds"
  | Some StateLocales => Some (locales st)
  end.

(** The value [renderSections] hands to an item: [setting(item.path)], and
    in [part_000] the item's [defaultValue] when that is [undefined]. *)
Definition shown_value (c : copy) (st : ViewState) (i : item) : value :=
  let v := resolveSetting proto_get (settings st) (defaults st) (i_path i) in
  match c with
  | index_js => v
  | part_000 => if is_undefined v then i_defaultValue i else v
  end.

(** The field an item is rendered as; [None] for a fault. *)
Definition render_item (c : copy) (st : ViewState) (i : item)
  : option control :=
  match Item proto_get (i_type i) with
  | None => None
  | Some select =>
      match getValue i (shown_value c st i), choices_of i st with
      | Some v, Some choices => Some (SelectField v choices)
      | _, _ => None
      end
  | Some dialog => option_map DialogField (getValue i (shown_value c st i))
  | Some fallback => option_map TextField (getValue i (shown_value c st i))
  end.

(** [renderSections]: the fields of every section. *)
Definition renderSections (c : copy) (st : ViewState)
  : option (list (list control)) :=
  all_or_fault
    (map (fun s => all_or_fault (map (render_item c st) (s_items s)))
       (sections c)).

(** The callback an item's [dialog] hands to the dialog: on ['ok'] it calls
    [update] with the value (the file dialog) or with [value.hex] (the colour
    dialog), on any other button nothing.  [None] when reading [value.hex]
    raises. *)
Definition dialog_closed (c : copy) (d : dialog_name) (path : string)
  (btn : string) (val : value) (w : world) : option world :=
  if btn =? "ok"
  then match d with
       | file_dialog => Some (act (update c path val (state w)) w)
       | color_dialog =>
           match get proto_get val "hex" with
           | Some hex => Some (act (update c path hex (state w)) w)
           | None => None
           end
       end
  else Some w.

End Sections.

(** ** Themes *)

(** A package as the package service describes it. *)
Record package : Type := {
  pkg_name : string;
  pkg_type : string;
  pkg_title : value
}.

(** [filter = type => pkg => pkg.type === type]. *)
Definition pkg_filter (type : string) (pkg : package) : bool :=
  pkg_type pkg =? type.

(** [Object.assign(target, source)] on own properties: every property of
    the source is assigned in order; assigning [__proto__] creates none. *)
Definition Object_assign_to (target source : list (string * value))
  : list (string * value) :=
  fold_left
    (fun t kv => if fst kv =? "__proto__" then t else assign t (fst kv) (snd kv))
    source target.

Section Themes.

(** [translatableFlat] of the locale service. *)
Variable translatableFlat : value -> value.

(** The packages the package service knows. *)
Variable packages : list package.

(** Modelled from the spec: [packageService.getPackages(predicate)], the
    packages that satisfy the predicate, in order (section 6). *)
Definition getPackages (predicate : package -> bool) : list package :=
  List.filter predicate packages.

(** [reduce] of [getThemes] in [index.js]:
    [(result, pkg) => Object.assign({[pkg.name]: translatableFlat(pkg.title)}, result)]. *)
Definition theme_reduce (result : list (string * value)) (pkg : package)
  : list (string * value) :=
  Object_assign_to [(pkg_name pkg, translatableFlat (pkg_title pkg))] result.

(** [get] of [getThemes] in [index.js]. *)
Definition theme_table (type : string) : list (string * value) :=
  fold_left theme_reduce (getPackages (pkg_filter type)) [].

(** An entry of a choice list in [part_000]. *)
Definition theme_choice (pkg : package) : value :=
  VObj [("value", VStr (pkg_name pkg));
        ("label", translatableFlat (pkg_title pkg))].

(** [get] of [getThemes] in [part_000]. *)
Definition theme_list (type : string) : list value :=
  map theme_choice (getPackages (pkg_filter type)).

(** [getThemes()]. *)
Definition getThemes (c : copy) : value :=
  match c with
  | index_js =>
      VObj [("styles", VObj (theme_table "theme"));
            ("icons", VObj (theme_table "icons"));
            ("sounds",
             VObj (Object_assign_to [("", VStr "None")]
                     (theme_table "sounds")))]
  | part_000 =>
      VObj [("styles", VArr (theme_list "theme"));
            ("icons", VArr (theme_list "icons"));
            ("sounds",
             VArr (VObj [("value", VStr ""); ("label", VStr "None")]
                   :: theme_list "sounds"))]
  end.

End Themes.

(** The label a choice list of [part_000] gives a value: that of its first
    entry with the value. *)
Fixpoint choice_label (name : string) (choices : list value) : option value :=
  match choices with
  | [] => None
  | VObj props :: rest =>
      match assoc "value" props with
      | Some (VStr n) =>
          if n =? name then assoc "label" props else choice_label name rest
      | _ => choice_label name rest
      end
  | _ :: rest => choice_label name rest
  end.

(** ** Counting the calls in a trace *)

Definition is_flush (e : effect) : bool :=
  match e with SettingsSave => true | _ => false end.

Definition is_applied (e : effect) : bool :=
  match e with ApplySettings => true | _ => false end.

Definition is_reported (e : effect) : bool :=
  match e with ConsoleError _ => true | _ => false end.

Definition count (p : effect -> bool) (t : list effect) : nat :=
  List.length (List.filter p t).

Definition is_update_event (e : event) : bool :=
  match e with CallUpdate _ _ => true | _ => false end.

Definition count_events (p : event -> bool) (es : list event) : nat :=
  List.length (List.filter p es).

Definition is_fulfilled (e : event) : bool :=
  match e with SaveFulfilled => true | _ => false end.

Definition is_rejected (e : event) : bool :=
  match e with SaveRejected _ => true | _ => false end.

(** The working tree is an object with the two scopes, and the saves in
    flight are as many as [loading] says. *)
Definition well_formed (w : world) : Prop :=
  (exists props,
      settings (state w) = VObj props
      /\ assoc "desktop" props <> None
      /\ assoc "locale" props <> None)
  /\ in_flight w = (if loading (state w) then 1 else 0)%nat.

(** Every flush is settled or in flight, counted from a given trace and
    list of events on. *)
Definition accounted (w0 : world) (events : list event) (w : world) : Prop :=
  (count is_flush (trace w) + in_flight w0
   = count is_flush (trace w0) + count_events is_fulfilled events
     + count_events is_rejected events + in_flight w)%nat
  /\ count is_applied (trace w)
     = (count is_applied (trace w0) + count_events is_fulfilled events)%nat
  /\ count is_reported (trace w)
     = (count is_reported (trace w0) + count_events is_rejected events)%nat.

(** The entry of a package in a table of [index.js]. *)
Definition theme_entry (translatableFlat : value -> value) (pkg : package)
  : string * value :=
  (pkg_name pkg, translatableFlat (pkg_title pkg)).

(** The first package of a type with a name. *)
Definition first_package (packages : list package) (type name : string)
  : option package :=
  find (fun pkg => pkg_filter type pkg && (pkg_name pkg =? name)) packages.

(** * Properties *)

(** ** Own properties *)

Lemma assoc_assign_eq props k x : assoc k (assign props k x) = Some x.
Proof.
  induction props as [|[k' y] rest IH]; simpl.
  - now rewrite String.eqb_refl.
  - destruct (k =? k') eqn:E; simpl.
    + now rewrite String.eqb_refl.
    + now rewrite E.
Qed.

Lemma assoc_assign_neq props k k' x :
  k <> k' -> assoc k (assign props k' x) = assoc k props.
Proof.
  intros Hne. induction props as [|[k0 y] rest IH]; simpl.
  - apply String.eqb_neq in Hne. now rewrite Hne.
  - destruct (k' =? k0) eqn:E; simpl.
    + apply String.eqb_eq in E. subst k0.
      apply String.eqb_neq in Hne. now rewrite Hne.
    + destruct (k =? k0); [reflexivity | exact IH].
Qed.

Lemma assoc_snoc {A : Type} k (l : list (string * A)) k1 (x : A) :
  assoc k (l ++ [(k1, x)])
  = match assoc k l with
    | Some y => Some y
    | None => if k =? k1 then Some x else None
    end.
Proof.
  induction l as [|[k0 y] l IH]; simpl; [reflexivity|].
  destruct (k =? k0); [reflexivity | exact IH].
Qed.

Lemma split_dots_not_nil key : split_dots key <> [].
Proof.
  destruct key as [|c rest]; simpl; [discriminate|].
  destruct (Ascii.eqb c "."); [discriminate|].
  destruct (split_dots rest); discriminate.
Qed.

Lemma join_dots_cons c seg segs :
  join_dots (String c seg :: segs) = String c (join_dots (seg :: segs)).
Proof. destruct segs; reflexivity. Qed.

Lemma split_dots_join key : join_dots (split_dots key) = key.
Proof.
  induction key as [|c rest IH]; [reflexivity|].
  pose proof (split_dots_not_nil rest) as Hne.
  cbn [split_dots]. destruct (Ascii.eqb c ".") eqn:E.
  - apply Ascii.eqb_eq in E. subst c.
    destruct (split_dots rest) as [|seg segs]; [congruence|].
    cbn [join_dots]. now rewrite <- IH.
  - destruct (split_dots rest) as [|seg segs]; [congruence|].
    now rewrite join_dots_cons, IH.
Qed.

Lemma split_dots_dotless key : forallb dotless (split_dots key) = true.
Proof.
  induction key as [|c rest IH]; [reflexivity|].
  cbn [split_dots]. destruct (Ascii.eqb c ".") eqn:E; [exact IH|].
  destruct (split_dots rest) as [|seg segs]; simpl; [now rewrite E|].
  simpl in IH. now rewrite E.
Qed.

(** ** Deep merge *)

Lemma merge_objects tprops sprops :
  merge (VObj tprops) (VObj sprops)
  = VObj (merge_each merge tprops sprops tprops).
Proof. reflexivity. Qed.

Lemma merge_replaces_by_source target source :
  is_mapping source = false -> merge target source = source.
Proof. destruct source; simpl; intros H; try reflexivity; discriminate. Qed.

Lemma merge_replaces_target target source :
  is_mapping target = false -> merge target source = source.
Proof.
  destruct source; try reflexivity.
  destruct target; simpl; intros H; try reflexivity; discriminate.
Qed.

Lemma merge_each_assoc tprops k sprops : forall dest,
  assoc k (merge_each merge tprops sprops dest)
  = match assoc k (rev sprops) with
    | Some sv => Some (merged_entry tprops k sv)
    | None => assoc k dest
    end.
Proof.
  induction sprops as [|[k1 sv1] rest IH]; intros dest; [reflexivity|].
  change (merge_each merge tprops ((k1, sv1) :: rest) dest)
    with (merge_each merge tprops rest
            (assign dest k1 (merged_entry tprops k1 sv1))).
  rewrite IH. simpl rev. rewrite assoc_snoc.
  destruct (assoc k (rev rest)) eqn:E; [reflexivity|].
  destruct (k =? k1) eqn:Ek.
  - apply String.eqb_eq in Ek. subst k1. apply assoc_assign_eq.
  - apply String.eqb_neq in Ek. now apply assoc_assign_neq.
Qed.

Lemma assoc_none_not_in {A : Type} k (l : list (string * A)) :
  assoc k l = None <-> ~ In k (map fst l).
Proof.
  induction l as [|[k0 y] l IH]; simpl.
  - split; [intros _ []|reflexivity].
  - destruct (k =? k0) eqn:E.
    + apply String.eqb_eq in E. subst. split; [discriminate|].
      intros H. exfalso. apply H. now left.
    + apply String.eqb_neq in E. rewrite IH. split.
      * intros H [H1|H1]; [now apply E|now apply H].
      * intros H H1. apply H. now right.
Qed.

Lemma assoc_rev_nodup (l : list (string * value)) k :
  NoDup (map fst l) -> assoc k (rev l) = assoc k l.
Proof.
  induction l as [|[k0 y] l IH]; intros Hnd; [reflexivity|].
  simpl in Hnd. inversion Hnd as [|? ? Hnotin Hnd']; subst.
  simpl rev. rewrite assoc_snoc, (IH Hnd'). simpl.
  destruct (k =? k0) eqn:E.
  - apply String.eqb_eq in E. subst k0.
    apply assoc_none_not_in in Hnotin. now rewrite Hnotin.
  - now destruct (assoc k l).
Qed.

Lemma merge_single tprops k sv :
  merge (VObj tprops) (VObj [(k, sv)])
  = VObj (assign tprops k (merged_entry tprops k sv)).
Proof. reflexivity. Qed.

Lemma merge_empty_source tprops : merge (VObj tprops) (VObj []) = VObj tprops.
Proof. reflexivity. Qed.

(** ** The loop of [resolveNewSetting] builds the skeleton *)

Lemma chain_snoc path j x :
  chain (path ++ [j]) x = chain path (VObj [(j, x)]).
Proof. induction path as [|p rest IH]; simpl; [reflexivity | now rewrite IH]. Qed.

Lemma assign_at_chain path j x :
  assign_at (chain path (VObj [])) path j x = chain path (VObj [(j, x)]).
Proof.
  induction path as [|p rest IH]; simpl; [reflexivity|].
  now rewrite String.eqb_refl, IH.
Qed.

Lemma loop_detached c key val keys o : forall turns,
  fold_left (fun st i => loop_body c key val keys i st) turns
    {| object := o; previous := None |}
  = {| object := o; previous := None |}.
Proof. induction turns as [|i turns IH]; simpl; [reflexivity | exact IH]. Qed.

Lemma loop_builds c key val : forall rest done,
  object
    (fold_left (fun st i => loop_body c key val (done ++ rest) i st)
       (seq (List.length done) (List.length rest))
       {| object := chain done (VObj []); previous := Some done |})
  = chain done (skeleton rest (leaf_value c key val)).
Proof.
  induction rest as [|k rest IH]; intros done; [reflexivity|].
  cbn [List.length seq fold_left].
  unfold loop_body at 2. cbn [previous object].
  rewrite nth_middle.
  replace (List.length (done ++ k :: rest) - 1 <=? List.length done)%nat
    with (match rest with [] => true | _ :: _ => false end).
  2:{ rewrite length_app. cbn [List.length]. destruct rest; cbn [List.length].
      - symmetry. apply Nat.leb_le. lia.
      - symmetry. apply Nat.leb_gt. lia. }
  cbn [skeleton]. destruct (k =? "__proto__") eqn:Ek.
  - now rewrite loop_detached.
  - rewrite assign_at_chain. destruct rest as [|k2 rest].
    + reflexivity.
    + specialize (IH (done ++ [k])%list).
      rewrite <- app_assoc, length_app in IH. cbn [app List.length] in IH.
      rewrite Nat.add_1_r, !chain_snoc in IH. exact IH.
Qed.

Lemma resolveNewSetting_settings c st key val :
  p_settings (resolveNewSetting c st key val)
  = Some (setPath c (settings st) key val).
Proof.
  unfold resolveNewSetting, setPath. cbn [p_settings]. do 2 f_equal.
  exact (loop_builds c key val (split_dots key) []).
Qed.

(** ** Reading a path *)

Section Reading.

Variable proto_get : kind -> string -> value.

Lemma get_own_key props k x :
  assoc k props = Some x -> get proto_get (VObj props) k = Some x.
Proof. intros H. unfold get, own. simpl. now rewrite H. Qed.

Lemma reduce_lookup : forall segs tree x,
  lookup_path tree segs = Some x -> reduce proto_get segs tree = Some x.
Proof.
  induction segs as [|k rest IH]; intros tree x H; simpl in *; [exact H|].
  destruct tree; try discriminate.
  destruct (assoc k props) as [child|] eqn:E; [|discriminate].
  rewrite (get_own_key _ _ _ E). now apply IH.
Qed.

Lemma lookup_needs_mapping tree k rest x :
  lookup_path tree (k :: rest) = Some x -> exists props, tree = VObj props.
Proof. destruct tree; simpl; try discriminate. intros _. now eexists. Qed.

Lemma assoc_filter_kept {A : Type} (keep : string -> bool) k :
  keep k = true ->
  forall props : list (string * A),
    assoc k (List.filter (fun kv => keep (fst kv)) props) = assoc k props.
Proof.
  intros Hk. induction props as [|[k' y] rest IH]; [reflexivity|].
  simpl. destruct (keep k') eqn:E; simpl.
  - now rewrite IH.
  - destruct (String.eqb_spec k k') as [->|_]; [congruence | exact IH].
Qed.

Lemma assoc_filter_dropped {A : Type} (keep : string -> bool) k :
  keep k = false ->
  forall props : list (string * A),
    assoc k (List.filter (fun kv => keep (fst kv)) props) = None.
Proof.
  intros Hk. induction props as [|[k' y] rest IH]; [reflexivity|].
  simpl. destruct (keep k') eqn:E; simpl; [|exact IH].
  destruct (String.eqb_spec k k') as [->|_]; [congruence | exact IH].
Qed.

Lemma own_copied_key tree k :
  k <> "__proto__" ->
  assoc k (own_copied (Object_assign tree)) = assoc k (own_enumerable tree).
Proof.
  intros Hk. unfold Object_assign. cbn [own_copied].
  apply (assoc_filter_kept (fun k => negb (k =? "__proto__"))).
  apply negb_true_iff. now apply String.eqb_neq.
Qed.

Lemma own_copied_proto tree :
  assoc "__proto__" (own_copied (Object_assign tree)) = None.
Proof.
  unfold Object_assign. cbn [own_copied].
  now apply (assoc_filter_dropped (fun k => negb (k =? "__proto__"))).
Qed.

Lemma get_copied_own props k x :
  k <> "__proto__" ->
  assoc k props = Some x ->
  get_copied proto_get (Object_assign (VObj props)) k = x.
Proof.
  intros Hk H. unfold get_copied. rewrite (own_copied_key _ _ Hk).
  simpl own_enumerable. now rewrite H.
Qed.

Lemma get_copied_proto tree :
  get_copied proto_get (Object_assign tree) "__proto__"
  = inherited proto_get (Object_assign tree) "__proto__".
Proof. unfold get_copied. now rewrite own_copied_proto. Qed.

Lemma reduce_copied_present tree k rest x :
  lookup_path tree (k :: rest) = Some x ->
  k <> "__proto__" ->
  reduce_copied proto_get (k :: rest) (Object_assign tree) = Some x.
Proof.
  intros H Hk. destruct (lookup_needs_mapping _ _ _ _ H) as [props ->].
  simpl in H. destruct (assoc k props) as [child|] eqn:E; [|discriminate].
  cbn [reduce_copied]. rewrite (get_copied_own _ _ _ Hk E).
  now apply reduce_lookup.
Qed.

Lemma resolve_present tree key fb x :
  lookup_path tree (split_dots key) = Some x ->
  hd "" (split_dots key) <> "__proto__" ->
  resolve proto_get tree key fb = if is_undefined x then fb else x.
Proof.
  intros H Hhd. unfold resolve.
  destruct (split_dots key) as [|k rest] eqn:E.
  - now apply split_dots_not_nil in E.
  - now rewrite (reduce_copied_present _ _ _ _ H Hhd).
Qed.

Lemma reduce_undefined segs :
  reduce proto_get segs VUndefined = None
  \/ reduce proto_get segs VUndefined = Some VUndefined.
Proof. destruct segs; simpl; [now right | now left]. Qed.

Lemma get_absent u k :
  lookup_path u [k] = None ->
  supplied_by proto_get u k = VUndefined ->
  get proto_get u k = None \/ get proto_get u k = Some VUndefined.
Proof.
  intros H Hnone. unfold get. unfold supplied_by in Hnone.
  destruct (kind_of u) as [c|] eqn:Ek; [right | now left].
  destruct (is_mapping u) eqn:Hm.
  - destruct u; try discriminate Hm. simpl in H. unfold own. simpl own_props.
    destruct (assoc k props); [discriminate|]. now rewrite Hnone.
  - now rewrite Hnone.
Qed.

Lemma reduce_first_absent k rest : forall found tree u,
  lookup_path tree found = Some u ->
  lookup_path u [k] = None ->
  supplied_by proto_get u k = VUndefined ->
  reduce proto_get (found ++ k :: rest) tree = None
  \/ reduce proto_get (found ++ k :: rest) tree = Some VUndefined.
Proof.
  induction found as [|f found IH]; intros tree u Hfound Habsent Hnone.
  - injection Hfound as ->. simpl.
    destruct (get_absent _ _ Habsent Hnone) as [-> | ->];
      [now left | apply reduce_undefined].
  - destruct (lookup_needs_mapping _ _ _ _ Hfound) as [props ->].
    simpl in Hfound. cbn [app reduce].
    destruct (assoc f props) as [child|] eqn:E; [|discriminate].
    rewrite (get_own_key _ _ _ E). exact (IH _ _ Hfound Habsent Hnone).
Qed.

Lemma resolve_absent_below tree key fb k0 found k rest u :
  split_dots key = (k0 :: found ++ k :: rest)%list ->
  k0 <> "__proto__" ->
  lookup_path tree (k0 :: found) = Some u ->
  lookup_path u [k] = None ->
  supplied_by proto_get u k = VUndefined ->
  resolve proto_get tree key fb = fb.
Proof.
  intros Hsplit Hk0 Hfound Habsent Hnone. unfold resolve. rewrite Hsplit.
  destruct (lookup_needs_mapping _ _ _ _ Hfound) as [props ->].
  simpl in Hfound. destruct (assoc k0 props) as [child|] eqn:E; [|discriminate].
  cbn [reduce_copied]. rewrite (get_copied_own _ _ _ Hk0 E).
  destruct (reduce_first_absent k rest _ _ _ Hfound Habsent Hnone)
    as [-> | ->]; reflexivity.
Qed.

Lemma resolve_absent_top tree key fb k rest :
  split_dots key = k :: rest ->
  assoc k (own_copied (Object_assign tree)) = None ->
  inherited proto_get (Object_assign tree) k = VUndefined ->
  resolve proto_get tree key fb = fb.
Proof.
  intros Hsplit Hown Hnone. unfold resolve. rewrite Hsplit.
  cbn [reduce_copied]. unfold get_copied. rewrite Hown, Hnone.
  destruct (reduce_undefined rest) as [-> | ->]; reflexivity.
Qed.

Lemma resolve_default_or_found tree key fb :
  resolve proto_get tree key fb = fb
  \/ (exists x,
        reduce_copied proto_get (split_dots key) (Object_assign tree) = Some x
        /\ is_undefined x = false
        /\ resolve proto_get tree key fb = x).
Proof.
  unfold resolve.
  destruct (reduce_copied proto_get (split_dots key) (Object_assign tree))
    as [x|]; [|now left].
  destruct (is_undefined x) eqn:E; [now left|].
  right. exists x. now rewrite E.
Qed.

End Reading.

(** ** Writing a path and reading it back *)

Lemma is_undefined_merge target source :
  is_undefined (merge target source) = is_undefined source.
Proof. destruct source; try reflexivity. now destruct target. Qed.

Lemma merge_undefined_target source : merge VUndefined source = source.
Proof. now apply merge_replaces_target. Qed.

Lemma prior_not_mapping tree k rest :
  is_mapping tree = false -> prior tree (k :: rest) = VUndefined.
Proof. destruct tree; simpl; intros H; try reflexivity; discriminate. Qed.

Lemma merge_skeleton_lookup leaf : forall segs tree,
  segs <> [] ->
  no_proto_segment segs = true ->
  lookup_path (merge tree (skeleton segs leaf)) segs
  = Some (merge (prior tree segs) leaf).
Proof.
  induction segs as [|k rest IH]; intros tree Hne Hproto; [congruence|].
  simpl in Hproto. apply andb_true_iff in Hproto as [Hk Hrest].
  apply negb_true_iff in Hk. cbn [skeleton]. rewrite Hk.
  set (sub := match rest with [] => leaf | _ :: _ => skeleton rest leaf end).
  assert (Hbelow : forall tv,
             lookup_path (merge tv sub) rest
             = Some (merge (prior tv rest) leaf)).
  { intros tv. subst sub. destruct rest as [|k2 rest']; [reflexivity|].
    apply IH; [discriminate | exact Hrest]. }
  assert (Hfresh : lookup_path sub rest = Some (merge VUndefined leaf)).
  { specialize (Hbelow VUndefined).
    rewrite merge_undefined_target in Hbelow. rewrite Hbelow.
    destruct rest; reflexivity. }
  destruct tree as [| | | | | |tprops|];
    try (rewrite merge_replaces_target by reflexivity;
         rewrite prior_not_mapping by reflexivity;
         simpl; rewrite String.eqb_refl; exact Hfresh).
  rewrite merge_single. simpl lookup_path. rewrite assoc_assign_eq.
  unfold merged_entry, prior. simpl lookup_path.
  destruct (assoc k tprops) as [tv|] eqn:E.
  - apply Hbelow.
  - exact Hfresh.
Qed.

Lemma merge_skeleton_frame leaf : forall segs2 segs1 tree x,
  disjoint_paths segs1 segs2 = true ->
  lookup_path tree segs2 = Some x ->
  lookup_path (merge tree (skeleton segs1 leaf)) segs2 = Some x.
Proof.
  induction segs2 as [|k2 rest2 IH]; intros segs1 tree x Hdis H.
  - destruct segs1; discriminate.
  - destruct segs1 as [|k1 rest1]; [discriminate|].
    destruct tree as [| | | | | |tprops|]; try discriminate.
    simpl in H. destruct (assoc k2 tprops) as [t2|] eqn:E2; [|discriminate].
    cbn [skeleton]. destruct (k1 =? "__proto__").
    { rewrite merge_empty_source. simpl. now rewrite E2. }
    rewrite merge_single. simpl lookup_path.
    destruct (String.eqb_spec k2 k1) as [->|Hne].
    + rewrite assoc_assign_eq. unfold merged_entry. rewrite E2.
      unfold disjoint_paths in Hdis. simpl in Hdis.
      rewrite String.eqb_refl in Hdis. simpl in Hdis.
      destruct rest1 as [|k1' rest1']; [discriminate|].
      now apply IH.
    + rewrite (assoc_assign_neq _ _ _ _ Hne), E2. exact H.
Qed.

Lemma leaf_value_plain c path val :
  c = index_js \/ path <> "desktop.iconview.enabled" ->
  leaf_value c path val = val.
Proof.
  intros [-> | Hne]; [reflexivity|].
  destruct c; [reflexivity|]. unfold leaf_value, resolveValue.
  apply String.eqb_neq in Hne. now rewrite Hne.
Qed.

Section RoundTrip.

Variable proto_get : kind -> string -> value.

Lemma settings_updated c st path val :
  settings (updated c st path val) = setPath c (settings st) path val.
Proof.
  unfold updated, update, merge_state. cbn [settings].
  now rewrite resolveNewSetting_settings.
Qed.

Lemma no_proto_segment_hd segs :
  no_proto_segment segs = true -> hd "" segs <> "__proto__".
Proof.
  destruct segs as [|k rest]; simpl; intros H; [discriminate|].
  apply andb_true_iff in H as [H _]. apply negb_true_iff in H.
  now apply String.eqb_neq.
Qed.

Lemma setPath_read_back c tree path val fb :
  no_proto_segment (split_dots path) = true ->
  resolve proto_get (setPath c tree path val) path fb
  = if is_undefined (leaf_value c path val) then fb
    else merge (prior tree (split_dots path)) (leaf_value c path val).
Proof.
  intros Hproto. unfold setPath.
  rewrite (resolve_present proto_get _ _ fb _
             (merge_skeleton_lookup _ _ tree (split_dots_not_nil path) Hproto)
             (no_proto_segment_hd _ Hproto)).
  now rewrite is_undefined_merge.
Qed.

Lemma merge_skeleton_own_proto leaf segs tprops :
  exists props,
    merge (VObj tprops) (skeleton segs leaf) = VObj props
    /\ assoc "__proto__" props = assoc "__proto__" tprops.
Proof.
  destruct segs as [|k rest]; cbn [skeleton].
  - exists tprops. now rewrite merge_empty_source.
  - destruct (String.eqb_spec k "__proto__") as [->|Hne].
    + exists tprops. now rewrite merge_empty_source.
    + eexists. rewrite merge_single. split; [reflexivity|].
      apply assoc_assign_neq. congruence.
Qed.

Lemma inherited_same t1 t2 k :
  assoc "__proto__" (own_enumerable t1) = assoc "__proto__" (own_enumerable t2) ->
  inherited proto_get (Object_assign t1) k
  = inherited proto_get (Object_assign t2) k.
Proof.
  intros H. unfold inherited, Object_assign. cbn [proto_set]. now rewrite H.
Qed.

Lemma setPath_frame c tree path1 val path2 fb x :
  disjoint_paths (split_dots path1) (split_dots path2) = true ->
  lookup_path tree (split_dots path2) = Some x ->
  resolve proto_get (setPath c tree path1 val) path2 fb
  = resolve proto_get tree path2 fb.
Proof.
  intros Hdis H. unfold setPath.
  destruct (String.eqb_spec (hd "" (split_dots path2)) "__proto__")
    as [Hhd|Hhd].
  - unfold resolve.
    destruct (split_dots path2) as [|k2 rest2]; [discriminate Hhd|].
    simpl in Hhd. subst k2.
    destruct (lookup_needs_mapping _ _ _ _ H) as [tprops ->].
    destruct (merge_skeleton_own_proto (leaf_value c path1 val)
                (split_dots path1) tprops) as [props [-> Hp]].
    cbn [reduce_copied]. rewrite !get_copied_proto.
    now rewrite (inherited_same (VObj props) (VObj tprops) _ Hp).
  - rewrite (resolve_present proto_get _ _ fb _
               (merge_skeleton_frame _ _ _ _ _ Hdis H) Hhd).
    now rewrite (resolve_present proto_get _ _ fb _ H Hhd).
Qed.

End RoundTrip.

(** * The claims *)

(** C1 (as amended).  [resolve] against the value a tree holds at a path
    whose first segment is not [__proto__]: a value that is present and not
    [undefined] is returned, and a present [undefined] gives the fallback.
    A path that is absent from some segment on gives the fallback when the
    value reached supplies nothing for that segment by itself: below a
    present prefix that value is the one the tree holds there (a mapping
    supplies the members of its prototype chain, a string or an array also
    its indices and [length]); at the first segment it is the copy of the
    tree, which supplies what it inherits.  A walk that faults gives the
    fallback; and whatever the tree and the path, the result is the
    fallback or the value the walk ended on. *)
Theorem resolve_by_path (proto_get : kind -> string -> value)
  (tree : value) (key : string) (fb : value) :
  (forall x, lookup_path tree (split_dots key) = Some x ->
             hd "" (split_dots key) <> "__proto__" ->
             is_undefined x = false ->
             resolve proto_get tree key fb = x)
  /\ (lookup_path tree (split_dots key) = Some VUndefined ->
      hd "" (split_dots key) <> "__proto__" ->
      resolve proto_get tree key fb = fb)
  /\ (forall k0 found k rest u,
        split_dots key = (k0 :: found ++ k :: rest)%list ->
        k0 <> "__proto__" ->
        lookup_path tree (k0 :: found) = Some u ->
        lookup_path u [k] = None ->
        supplied_by proto_get u k = VUndefined ->
        resolve proto_get tree key fb = fb)
  /\ (forall k rest,
        split_dots key = k :: rest ->
        assoc k (own_copied (Object_assign tree)) = None ->
        inherited proto_get (Object_assign tree) k = VUndefined ->
        resolve proto_get tree key fb = fb)
  /\ (reduce_copied proto_get (split_dots key) (Object_assign tree) = None ->
      resolve proto_get tree key fb = fb)
  /\ (resolve proto_get tree key fb = fb
      \/ exists x,
           reduce_copied proto_get (split_dots key) (Object_assign tree)
           = Some x
           /\ is_undefined x = false
           /\ resolve proto_get tree key fb = x).
Proof.
  split; [|split; [|split; [|split; [|split]]]].
  - intros x H Hhd Hx. now rewrite (resolve_present _ _ _ _ _ H Hhd), Hx.
  - intros H Hhd. now rewrite (resolve_present _ _ _ _ _ H Hhd).
  - intros k0 found k rest u. apply resolve_absent_below.
  - intros k rest. apply resolve_absent_top.
  - intros H. unfold resolve. now rewrite H.
  - apply resolve_default_or_found.
Qed.

(** C1 at concrete trees: a stored theme is found; a missing one falls
    back, at the first segment of the empty tree, below a string, and, for
    [length], below a mapping. *)
Lemma resolve_by_path_witness :
  resolve ecma_proto_get
    (VObj [("desktop", VObj [("theme", VStr "dark")])]) "desktop.theme"
    (VStr "default") = VStr "dark"
  /\ resolve ecma_proto_get (VObj []) "desktop.theme" (VStr "default")
     = VStr "default"
  /\ resolve ecma_proto_get
       (VObj [("desktop", VStr "x")]) "desktop.theme.name" (VStr "default")
     = VStr "default"
  /\ resolve ecma_proto_get
       (VObj [("desktop", VObj [])]) "desktop.length" (VStr "default")
     = VStr "default".
Proof.
  split; [|split; [|split]].
  - apply (proj1 (resolve_by_path ecma_proto_get _ "desktop.theme" _));
      [reflexivity | discriminate | reflexivity].
  - apply (proj1 (proj2 (proj2 (proj2
             (resolve_by_path ecma_proto_get _ "desktop.theme" _))))
             "desktop" ["theme"]);
      reflexivity.
  - apply (proj1 (proj2 (proj2
             (resolve_by_path ecma_proto_get _ "desktop.theme.name" _)))
             "desktop" [] "theme" ["name"] (VStr "x"));
      [reflexivity | discriminate | reflexivity | reflexivity | reflexivity].
  - apply (proj1 (proj2 (proj2
             (resolve_by_path ecma_proto_get _ "desktop.length" _)))
             "desktop" [] "length" [] (VObj []));
      [reflexivity | discriminate | reflexivity | reflexivity | reflexivity].
Defined.

(** C1 as stated fails: below the string ["xyz"] the segment [length] is
    absent from the tree, yet [resolve] returns 3 in every runtime; and
    [constructor], absent from the empty tree, resolves to the member the
    tree inherits. *)
Lemma resolve_absent_not_fallback :
  lookup_path (VObj [("a", VStr "xyz")]) (split_dots "a.length") = None
  /\ (forall proto_get,
        resolve proto_get (VObj [("a", VStr "xyz")]) "a.length" VNull
        = VNum 3)
  /\ lookup_path (VObj []) (split_dots "constructor") = None
  /\ resolve ecma_proto_get (VObj []) "constructor" VNull
     = VHost "Object.prototype.constructor".
Proof. repeat split. Qed.

(** C2 (as amended).  After [update({path, value})], for a path with no
    [__proto__] segment, reading the path back gives the fallback when the
    stored value is [undefined], and otherwise the deep merge of the value
    the tree held there with the stored value.  So a scalar is read back
    unchanged, in [index.js] for every such path and in [part_000] for every
    such path but ['desktop.iconview.enabled']. *)
Theorem update_read_back (proto_get : kind -> string -> value)
  (c : copy) (st : ViewState) (path : string) (val fb : value) :
  no_proto_segment (split_dots path) = true ->
  resolve proto_get (settings (updated c st path val)) path fb
  = (if is_undefined (leaf_value c path val) then fb
     else merge (prior (settings st) (split_dots path))
            (leaf_value c path val))
  /\ (is_scalar val = true ->
      c = index_js \/ path <> "desktop.iconview.enabled" ->
      resolve proto_get (settings (updated c st path val)) path fb = val).
Proof.
  intros Hproto. rewrite settings_updated.
  rewrite (setPath_read_back proto_get c _ path val fb Hproto).
  split; [reflexivity|].
  intros Hscalar Hplain. rewrite (leaf_value_plain _ _ _ Hplain).
  destruct val; try discriminate Hscalar; reflexivity.
Qed.

(** C2 at a concrete update: the theme written into the empty working tree
    is read back. *)
Lemma update_read_back_witness :
  resolve ecma_proto_get
    (settings (updated part_000 (editing (VObj []))
                 "desktop.theme" (VStr "dark")))
    "desktop.theme" VNull
  = VStr "dark".
Proof.
  apply (proj2 (update_read_back ecma_proto_get part_000 _ "desktop.theme"
                  (VStr "dark") VNull eq_refl));
    [reflexivity | right; discriminate].
Defined.

(** C2 as stated fails: a mapping written over a mapping is merged with it;
    [undefined] is read back as the fallback; in [part_000] the string
    ['false'] written to ['desktop.iconview.enabled'] is read back as the
    boolean; and a write below [__proto__] leaves the tree as it was. *)
Lemma update_read_back_not_exact :
  resolve ecma_proto_get
    (settings (updated index_js (editing (VObj [("a", VObj [("x", VNum 1)])]))
                 "a" (VObj [("y", VNum 2)]))) "a" VNull
  = VObj [("x", VNum 1); ("y", VNum 2)]
  /\ resolve ecma_proto_get
       (settings (updated index_js (editing (VObj [])) "a" VUndefined)) "a"
       VNull
     = VNull
  /\ resolve ecma_proto_get
       (settings (updated part_000 (editing (VObj []))
                    "desktop.iconview.enabled" (VStr "false")))
       "desktop.iconview.enabled" VNull
     = VBool false
  /\ settings (updated index_js (editing (VObj [])) "__proto__.x" (VStr "v"))
     = VObj []
  /\ resolve ecma_proto_get
       (settings (updated index_js (editing (VObj [])) "__proto__.x"
                    (VStr "v"))) "__proto__.x" VNull
     = VNull.
Proof. repeat split. Qed.

(** C3 (as amended).  A path present in the working tree resolves after an
    update of a disjoint path as it did before; when its first segment is
    not [__proto__] and the value it holds is not [undefined], that is the
    value itself. *)
Theorem update_preserves_disjoint (proto_get : kind -> string -> value)
  (c : copy) (st : ViewState) (path1 : string) (val1 : value)
  (path2 : string) (val2 fb : value) :
  lookup_path (settings st) (split_dots path2) = Some val2 ->
  disjoint_paths (split_dots path1) (split_dots path2) = true ->
  resolve proto_get (settings (updated c st path1 val1)) path2 fb
  = resolve proto_get (settings st) path2 fb
  /\ (is_undefined val2 = false ->
      hd "" (split_dots path2) <> "__proto__" ->
      resolve proto_get (settings (updated c st path1 val1)) path2 fb = val2
      /\ resolve proto_get (settings st) path2 fb = val2).
Proof.
  intros H Hdis. rewrite settings_updated.
  rewrite (setPath_frame proto_get c _ path1 val1 path2 fb val2 Hdis H).
  split; [reflexivity|]. intros Hdef Hhd.
  rewrite (resolve_present proto_get _ _ fb _ H Hhd), Hdef. now split.
Qed.

(** C3 at the scenario of the specification: after the style of the
    background is set, its colour is still the one stored before. *)
Lemma update_preserves_disjoint_witness :
  resolve ecma_proto_get
    (settings (updated part_000
                 (editing
                    (VObj [("desktop",
                            VObj [("background",
                                   VObj [("color", VStr "#fff")])])]))
                 "desktop.background.style" (VStr "cover")))
    "desktop.background.color" VNull
  = VStr "#fff".
Proof.
  refine (proj1 (proj2 (update_preserves_disjoint ecma_proto_get part_000
                   (editing
                      (VObj [("desktop",
                              VObj [("background",
                                     VObj [("color", VStr "#fff")])])]))
                   "desktop.background.style" (VStr "cover")
                   "desktop.background.color" (VStr "#fff") VNull _ _) _ _));
    [reflexivity | reflexivity | reflexivity | discriminate].
Defined.

(** C3 as stated fails: a tree that has [__proto__] as an own key holds 5 at
    the path [__proto__], which is disjoint from the path [a]; yet before
    and after an update of [a], in both copies, the path resolves to the
    prototype of the copy that [resolve] makes, since the copy gets no such
    own key and the setter drops a number. *)
Lemma update_own_proto_not_read :
  lookup_path (settings (editing (VObj [("__proto__", VNum 5)])))
    (split_dots "__proto__")
  = Some (VNum 5)
  /\ disjoint_paths (split_dots "a") (split_dots "__proto__") = true
  /\ resolve ecma_proto_get
       (settings (updated index_js (editing (VObj [("__proto__", VNum 5)]))
                    "a" (VNum 1))) "__proto__" VNull
     = VHost "Object.prototype.__proto__"
  /\ resolve ecma_proto_get
       (settings (updated part_000 (editing (VObj [("__proto__", VNum 5)]))
                    "a" (VNum 1))) "__proto__" VNull
     = VHost "Object.prototype.__proto__"
  /\ resolve ecma_proto_get
       (settings (editing (VObj [("__proto__", VNum 5)]))) "__proto__" VNull
     = VHost "Object.prototype.__proto__".
Proof. repeat split. Qed.

(** C9 (as amended).  The empty path has the one segment [""]: an update at
    it writes the value under the key [""] of the working tree, and every
    path present in the tree whose first segment is not [""] resolves as
    before. *)
Theorem update_empty_path (proto_get : kind -> string -> value)
  (c : copy) (st : ViewState) (val : value) :
  settings (updated c st "" val) = merge (settings st) (VObj [("", val)])
  /\ (forall path2 val2 fb,
        lookup_path (settings st) (split_dots path2) = Some val2 ->
        hd "" (split_dots path2) <> "" ->
        resolve proto_get (settings (updated c st "" val)) path2 fb
        = resolve proto_get (settings st) path2 fb).
Proof.
  split.
  - rewrite settings_updated. unfold setPath.
    now rewrite (leaf_value_plain c "" val) by (right; discriminate).
  - intros path2 val2 fb H Hhd. rewrite settings_updated.
    apply setPath_frame with (x := val2); [|exact H].
    destruct (split_dots path2) as [|k2 rest2]; [now elim Hhd|].
    simpl in Hhd. unfold disjoint_paths. simpl.
    destruct (String.eqb_spec k2 "") as [->|_]; [congruence|].
    destruct k2; [congruence | reflexivity].
Qed.

(** C9 as stated fails: in a tree that has the key [""], the empty path is
    present and resolves to 1 before the update and to 2 after it, in both
    copies. *)
Lemma update_empty_path_overwrites :
  lookup_path (settings (editing (VObj [("", VNum 1)]))) (split_dots "")
  = Some (VNum 1)
  /\ resolve ecma_proto_get (settings (editing (VObj [("", VNum 1)]))) ""
       VNull
     = VNum 1
  /\ resolve ecma_proto_get
       (settings (updated index_js (editing (VObj [("", VNum 1)])) ""
                    (VNum 2))) "" VNull
     = VNum 2
  /\ resolve ecma_proto_get
       (settings (updated part_000 (editing (VObj [("", VNum 1)])) ""
                    (VNum 2))) "" VNull
     = VNum 2.
Proof. repeat split. Qed.

(** C9 at a concrete tree: the theme stored before an update at the empty
    path is still there. *)
Lemma update_empty_path_witness :
  resolve ecma_proto_get
    (settings (updated index_js
                 (editing (VObj [("desktop", VObj [("theme", VStr "dark")])]))
                 "" (VStr "v")))
    "desktop.theme" VNull
  = VStr "dark".
Proof.
  rewrite (proj2 (update_empty_path ecma_proto_get index_js
                    (editing
                       (VObj [("desktop", VObj [("theme", VStr "dark")])]))
                    (VStr "v"))
             "desktop.theme" (VStr "dark") VNull eq_refl);
    [reflexivity | discriminate].
Defined.

(** C4.  The contract of [merge] as [resolveNewSetting] uses it: the working
    tree after an update is the merge of the prior tree with the skeleton;
    under a key of the source, two values are merged recursively and a value
    the target lacks is taken from the source; the other keys of the target
    stay; a source that is a scalar or an array replaces the prior value, and
    a mapping replaces a prior value that is none. *)
Theorem merge_contract :
  (forall c st path val,
      settings (updated c st path val)
      = merge (settings st)
          (skeleton (split_dots path) (leaf_value c path val)))
  /\ (forall tprops sprops k,
        NoDup (map fst sprops) ->
        own (merge (VObj tprops) (VObj sprops)) k
        = match assoc k sprops with
          | Some sv => Some (merged_entry tprops k sv)
          | None => assoc k tprops
          end)
  /\ (forall target source,
        is_mapping source = false -> merge target source = source)
  /\ (forall target source,
        is_mapping target = false -> merge target source = source)
  /\ (forall a b, merge (VArr a) (VArr b) = VArr b).
Proof.
  repeat split.
  - intros. apply settings_updated.
  - intros tprops sprops k Hnd. rewrite merge_objects. unfold own.
    simpl own_props. rewrite merge_each_assoc.
    now rewrite (assoc_rev_nodup _ _ Hnd).
  - apply merge_replaces_by_source.
  - apply merge_replaces_target.
Qed.

(** C4 at a concrete update: the colour is merged into the background
    mapping next to the style. *)
Lemma merge_contract_witness :
  own (merge (VObj [("background", VObj [("style", VStr "cover")])])
         (VObj [("background", VObj [("color", VStr "#fff")])]))
    "background"
  = Some (VObj [("style", VStr "cover"); ("color", VStr "#fff")]).
Proof.
  rewrite (proj1 (proj2 merge_contract)); [reflexivity|].
  repeat constructor. intros [].
Defined.

(** C5 (as amended).  In [part_000] an update stores
    [resolveValue(path, value)] at the path.  For ['desktop.iconview.enabled']
    that is a boolean, [true] exactly for the string ['true'] (and [false]
    for the boolean [true]), and it is what the path then resolves to; for
    every other path it is the value itself.  In [index.js] it is the value
    itself for every path. *)
Theorem update_coerces (proto_get : kind -> string -> value)
  (st : ViewState) (path : string) (val fb : value) :
  settings (updated part_000 st path val)
  = merge (settings st) (skeleton (split_dots path) (resolveValue path val))
  /\ resolveValue "desktop.iconview.enabled" val
     = VBool (match val with VStr s => s =? "true" | _ => false end)
  /\ (resolveValue "desktop.iconview.enabled" val = VBool true
      <-> val = VStr "true")
  /\ (val <> VStr "true" ->
      resolveValue "desktop.iconview.enabled" val = VBool false)
  /\ resolveValue "desktop.iconview.enabled" (VBool true) = VBool false
  /\ (path <> "desktop.iconview.enabled" -> resolveValue path val = val)
  /\ resolve proto_get
       (settings (updated part_000 st "desktop.iconview.enabled" val))
       "desktop.iconview.enabled" fb
     = resolveValue "desktop.iconview.enabled" val
  /\ settings (updated index_js st path val)
     = merge (settings st) (skeleton (split_dots path) val).
Proof.
  assert (Hbool : forall v, v <> VStr "true" ->
             resolveValue "desktop.iconview.enabled" v = VBool false).
  { intros v Hv. unfold resolveValue. simpl. destruct v; try reflexivity.
    destruct (String.eqb_spec s "true") as [->|_]; [congruence|reflexivity]. }
  split; [apply settings_updated|].
  split; [reflexivity|].
  split.
  { split.
    - intros H. destruct val; try discriminate H.
      unfold resolveValue in H. simpl in H.
      destruct (String.eqb_spec s "true") as [->|_];
        [reflexivity | discriminate H].
    - intros ->. reflexivity. }
  split; [apply Hbool|].
  split; [reflexivity|].
  split.
  { intros Hne. unfold resolveValue. apply String.eqb_neq in Hne.
    now rewrite Hne. }
  split; [|apply settings_updated].
  rewrite settings_updated.
  rewrite (setPath_read_back proto_get part_000 _
             "desktop.iconview.enabled" val fb eq_refl).
  reflexivity.
Qed.

(** C5 at the control's two answers and at a boolean. *)
Lemma update_coerces_witness :
  resolve ecma_proto_get
    (settings (updated part_000 (editing (VObj []))
                 "desktop.iconview.enabled" (VStr "true")))
    "desktop.iconview.enabled" VNull
  = VBool true
  /\ resolveValue "desktop.iconview.enabled" (VStr "false") = VBool false
  /\ resolveValue "desktop.theme" (VStr "true") = VStr "true".
Proof.
  split; [|split].
  - rewrite (proj1 (proj2 (proj2 (proj2 (proj2 (proj2 (proj2
               (update_coerces ecma_proto_get (editing (VObj []))
                  "desktop.iconview.enabled" (VStr "true") VNull)))))))).
    reflexivity.
  - apply (proj1 (proj2 (proj2 (proj2
            (update_coerces ecma_proto_get (editing (VObj []))
               "desktop.iconview.enabled" (VStr "false") VNull)))));
      discriminate.
  - apply (proj1 (proj2 (proj2 (proj2 (proj2 (proj2
            (update_coerces ecma_proto_get (editing (VObj []))
               "desktop.theme" (VStr "true") VNull)))))));
      discriminate.
Defined.

(** C5 as stated fails in [index.js]: the strings ['true'] and ['false']
    written to ['desktop.iconview.enabled'] are stored, and read back, as
    the strings they are. *)
Lemma update_keeps_string_in_index_js :
  settings (updated index_js (editing (VObj []))
              "desktop.iconview.enabled" (VStr "true"))
  = VObj [("desktop",
           VObj [("iconview", VObj [("enabled", VStr "true")])])]
  /\ resolve ecma_proto_get
       (settings (updated index_js (editing (VObj []))
                    "desktop.iconview.enabled" (VStr "true")))
       "desktop.iconview.enabled" VNull
     = VStr "true"
  /\ resolve ecma_proto_get
       (settings (updated index_js (editing (VObj []))
                    "desktop.iconview.enabled" (VStr "false")))
       "desktop.iconview.enabled" VNull
     = VStr "false".
Proof. repeat split. Qed.

(** ** The save lifecycle *)

Section Lifecycle.

Variable proto_get : kind -> string -> value.

Lemma save_dropped w : loading (state w) = true -> save proto_get w = w.
Proof. intros H. unfold save. now rewrite H. Qed.

Lemma save_started w calls :
  loading (state w) = false ->
  setSettings proto_get (settings (state w)) = Some calls ->
  save proto_get w
  = {| state := merge_state (state w) (setLoading true);
       in_flight := S (in_flight w);
       trace := trace w ++ calls |}.
Proof. intros Hl Hs. unfold save. now rewrite Hl, Hs. Qed.

Lemma settled_state error w w' :
  settled error w = Some w' ->
  state w' = merge_state (state w) (setLoading false)
  /\ in_flight w = S (in_flight w').
Proof.
  unfold settled. destruct (in_flight w) as [|n]; [discriminate|].
  intros H. injection H as <-. now split.
Qed.

Lemma step_single_flight c w e w' :
  single_flight w -> step proto_get c w e = Some w' -> single_flight w'.
Proof.
  unfold single_flight. intros Hw Hstep.
  destruct e; simpl in Hstep.
  - injection Hstep as <-. unfold save.
    destruct (loading (state w)) eqn:Hl; [now rewrite Hl|].
    destruct (setSettings proto_get (settings (state w))); simpl; lia.
  - injection Hstep as <-. exact Hw.
  - injection Hstep as <-. exact Hw.
  - destruct (settled_state _ _ _ Hstep) as [-> Hn]. simpl.
    destruct (loading (state w)); lia.
  - destruct (settled_state _ _ _ Hstep) as [-> Hn]. simpl.
    destruct (loading (state w)); lia.
Qed.

Lemma run_single_flight c : forall events w w',
  single_flight w -> run proto_get c w events = Some w' -> single_flight w'.
Proof.
  induction events as [|e rest IH]; intros w w' Hw Hrun; simpl in Hrun.
  - now injection Hrun as <-.
  - destruct (step proto_get c w e) as [w1|] eqn:E; [|discriminate].
    exact (IH _ _ (step_single_flight _ _ _ _ Hw E) Hrun).
Qed.

End Lifecycle.

(** C6.  A [save] while [loading] is set changes nothing: no state, no call
    on the settings service, no new promise.  A [save] while it is clear
    goes from idle to saving, makes the set and flush calls and has one more
    promise in flight; either settlement goes back to idle.  From the start
    of the application, whatever the events, at most one save is in flight,
    and only in the saving phase. *)
Theorem save_single_flight (proto_get : kind -> string -> value) (c : copy) :
  (forall w, loading (state w) = true -> save proto_get w = w)
  /\ (forall w calls,
        loading (state w) = false ->
        setSettings proto_get (settings (state w)) = Some calls ->
        phase_of w = idle
        /\ phase_of (save proto_get w) = saving
        /\ in_flight (save proto_get w) = S (in_flight w)
        /\ trace (save proto_get w) = (trace w ++ calls)%list)
  /\ (forall w error w',
        settled error w = Some w' ->
        phase_of w' = idle /\ in_flight w = S (in_flight w'))
  /\ (forall st events w,
        run proto_get c (start st) events = Some w ->
        (in_flight w <= 1)%nat
        /\ (in_flight w = 1%nat -> phase_of w = saving)).
Proof.
  split; [apply save_dropped|]. split; [|split].
  - intros w calls Hl Hs. rewrite (save_started _ _ _ Hl Hs).
    unfold phase_of. rewrite Hl. now repeat split.
  - intros w error w' H. destruct (settled_state _ _ _ H) as [Hs Hn].
    unfold phase_of. rewrite Hs. now split.
  - intros st events w Hrun.
    assert (Hsf : single_flight w).
    { apply (run_single_flight proto_get c events (start st)); [|exact Hrun].
      unfold single_flight. simpl. lia. }
    unfold single_flight in Hsf. unfold phase_of.
    destruct (loading (state w)); split; try lia; reflexivity.
Qed.

(** C6 on a run: of two saves in a row the second is dropped, and after the
    first is settled a third goes through. *)
Lemma save_single_flight_witness :
  option_map in_flight
    (run ecma_proto_get part_000 (start fresh)
       [CallSave; CallSave])
  = Some 1%nat
  /\ save ecma_proto_get (save ecma_proto_get (start fresh))
     = save ecma_proto_get (start fresh)
  /\ option_map in_flight
       (run ecma_proto_get part_000 (start fresh)
          [CallSave; SaveFulfilled; CallSave])
     = Some 1%nat.
Proof.
  split; [reflexivity|]. split; [|reflexivity].
  apply (proj1 (save_single_flight ecma_proto_get part_000)).
  reflexivity.
Defined.

(** C7.  The [catch] callback of a save clears [loading] and leaves the
    working tree as it is; so a save that starts and is rejected ends with
    [loading] clear, the working tree of before the call, no save in flight
    beyond those of before, and the error reported. *)
Theorem save_rejected_keeps_edits (proto_get : kind -> string -> value) :
  (forall w error w',
      settled (Some error) w = Some w' ->
      loading (state w') = false
      /\ settings (state w') = settings (state w)
      /\ defaults (state w') = defaults (state w))
  /\ (forall w calls error,
        loading (state w) = false ->
        setSettings proto_get (settings (state w)) = Some calls ->
        exists w',
          settled (Some error) (save proto_get w) = Some w'
          /\ loading (state w') = false
          /\ settings (state w') = settings (state w)
          /\ in_flight w' = in_flight w
          /\ trace w' = (trace w ++ calls ++ [ConsoleError error])%list).
Proof.
  split.
  - intros w error w' H. destruct (settled_state _ _ _ H) as [-> _].
    now repeat split.
  - intros w calls error Hl Hs. rewrite (save_started _ _ _ Hl Hs).
    eexists. split; [reflexivity|]. simpl.
    repeat split. now rewrite <- app_assoc.
Qed.

(** C7 on a run: an edit, a save and its rejection leave the edit in the
    working tree and [loading] clear. *)
Lemma save_rejected_keeps_edits_witness :
  option_map (fun w => (loading (state w), settings (state w)))
    (run ecma_proto_get part_000 (start fresh)
       [CallUpdate "desktop.theme" (VStr "dark"); CallSave;
        SaveRejected (VStr "offline")])
  = Some (false,
          VObj [("desktop", VObj [("theme", VStr "dark")]);
                ("locale", VObj [])])
  /\ exists w',
       settled (Some (VStr "offline"))
         (save ecma_proto_get (start fresh)) = Some w'
       /\ loading (state w') = false
       /\ settings (state w') = settings fresh.
Proof.
  split; [reflexivity|].
  destruct (proj2 (save_rejected_keeps_edits ecma_proto_get)
              (start fresh) _ (VStr "offline")
              eq_refl eq_refl) as [w' [H1 [H2 [H3 _]]]].
  exists w'. repeat split; assumption.
Defined.

(** C10.  An update names only [settings] in the partial state it returns,
    so the state after it has the [loading], [defaults], [locales] and
    [themes] of before; in the application it starts no save and makes no
    call. *)
Theorem update_frame (c : copy) (st : ViewState) (path : string)
  (val : value) :
  loading (updated c st path val) = loading st
  /\ defaults (updated c st path val) = defaults st
  /\ locales (updated c st path val) = locales st
  /\ themes (updated c st path val) = themes st
  /\ (forall w, in_flight (act (update c path val (state w)) w) = in_flight w
               /\ trace (act (update c path val (state w)) w) = trace w).
Proof. repeat split. Qed.

(** ** Field dispatch *)

Lemma Item_unknown_kind (proto_get : kind -> string -> value) type :
  assoc type fieldMap = None ->
  truthy (proto_get KObject type) = false ->
  Item proto_get type = Some fallback.
Proof. intros H Ht. unfold Item, field_of. now rewrite H, Ht. Qed.

Lemma Item_registered_kind (proto_get : kind -> string -> value) type s :
  assoc type fieldMap = Some s -> Item proto_get type = Some s.
Proof. intros H. unfold Item, field_of. now rewrite H. Qed.

(** C8 fails for the kinds that name a member of [Object.prototype]: the
    table finds the inherited member, which is truthy, so the fallback is not
    taken and applying the member raises.  For [constructor] and [toString]
    in a browser; for any kind that is not registered and that the table
    inherits; whereas a kind that is neither registered nor inherited gets
    the fallback. *)
Theorem Item_inherited_kind_faults :
  Item ecma_proto_get "constructor" = None
  /\ Item ecma_proto_get "toString" = None
  /\ Item ecma_proto_get "text" = Some fallback
  /\ Item ecma_proto_get "select" = Some select
  /\ Item ecma_proto_get "dialog" = Some dialog
  /\ (forall proto_get type,
        assoc type fieldMap = None ->
        truthy (proto_get KObject type) = true ->
        Item proto_get type = None).
Proof.
  repeat split. intros proto_get type H Ht. unfold Item, field_of.
  now rewrite H, Ht.
Qed.

(** ** The scenarios of the specification *)

(** With empty settings and the default theme in the defaults, the theme
    resolves to the default; after an update it resolves to the new theme,
    while the icons still fall through to the defaults. *)
Example scenario_defaults :
  resolveSetting ecma_proto_get (VObj [])
    (VObj [("desktop", VObj [("theme", VStr "default")])]) "desktop.theme"
  = VStr "default"
  /\ resolveSetting ecma_proto_get
       (settings (updated part_000 (editing (VObj [])) "desktop.theme"
                    (VStr "dark")))
       (VObj [("desktop", VObj [("theme", VStr "default")])]) "desktop.theme"
     = VStr "dark"
  /\ resolveSetting ecma_proto_get
       (settings (updated part_000 (editing (VObj [])) "desktop.theme"
                    (VStr "dark")))
       (VObj [("desktop", VObj [("icons", VStr "gnome")])]) "desktop.icons"
     = VStr "gnome".
Proof. repeat split. Qed.

(** Two updates in a row, of the style and of the colour of the background,
    leave both readable. *)
Example scenario_siblings :
  option_map (fun w => settings (state w))
    (run ecma_proto_get part_000 (start fresh)
       [CallUpdate "desktop.background.style" (VStr "cover");
        CallUpdate "desktop.background.color" (VStr "#fff")])
  = Some (VObj [("desktop",
                 VObj [("background",
                        VObj [("style", VStr "cover");
                              ("color", VStr "#fff")])]);
                ("locale", VObj [])]).
Proof. reflexivity. Qed.

(** * Further properties of the program *)

(** ** Settings over defaults *)

Lemma is_scalar_leaf_value c path val :
  is_scalar val = true -> is_scalar (leaf_value c path val) = true.
Proof.
  intros H. destruct c; [exact H|]. unfold leaf_value, resolveValue.
  now destruct (path =? "desktop.iconview.enabled").
Qed.

Lemma scalar_not_undefined v : is_scalar v = true -> is_undefined v = false.
Proof. destruct v; simpl; intros H; try reflexivity; discriminate. Qed.

Lemma scalar_not_mapping v : is_scalar v = true -> is_mapping v = false.
Proof. destruct v; simpl; intros H; try reflexivity; discriminate. Qed.

Lemma setPath_scalar_read_back proto_get c tree path val fb :
  no_proto_segment (split_dots path) = true ->
  is_scalar val = true ->
  resolve proto_get (setPath c tree path val) path fb = leaf_value c path val.
Proof.
  intros Hproto Hscalar.
  pose proof (is_scalar_leaf_value c path val Hscalar) as Hleaf.
  rewrite (setPath_read_back proto_get c tree path val fb Hproto).
  rewrite (scalar_not_undefined _ Hleaf).
  apply merge_replaces_by_source. now apply scalar_not_mapping.
Qed.

Lemma resolve_fallback_when_undefined proto_get tree key fb :
  resolve proto_get tree key fb
  = if is_undefined (resolve proto_get tree key VUndefined) then fb
    else resolve proto_get tree key VUndefined.
Proof.
  unfold resolve.
  destruct (reduce_copied proto_get (split_dots key) (Object_assign tree))
    as [x|]; [|reflexivity].
  destruct (is_undefined x) eqn:E; [reflexivity | now rewrite E].
Qed.

(** X1.  [resolveSetting] consults the defaults exactly when the settings
    resolve to [undefined].  A value other than [undefined] that the
    settings hold at a path whose first segment is not [__proto__] wins over
    any default.  A path the settings lack from some segment on is resolved
    in the defaults alone, when the value reached supplies nothing for that
    segment by itself: the value the settings hold at the present prefix,
    or, at the first segment, the copy of the settings with what it
    inherits. *)
Theorem resolveSetting_layers (proto_get : kind -> string -> value)
  (tree dflt : value) (key : string) :
  resolveSetting proto_get tree dflt key
  = (if is_undefined (resolve proto_get tree key VUndefined)
     then resolve proto_get dflt key VUndefined
     else resolve proto_get tree key VUndefined)
  /\ (forall x, lookup_path tree (split_dots key) = Some x ->
                hd "" (split_dots key) <> "__proto__" ->
                is_undefined x = false ->
                resolveSetting proto_get tree dflt key = x)
  /\ (forall k0 found k rest u,
        split_dots key = (k0 :: found ++ k :: rest)%list ->
        k0 <> "__proto__" ->
        lookup_path tree (k0 :: found) = Some u ->
        lookup_path u [k] = None ->
        supplied_by proto_get u k = VUndefined ->
        resolveSetting proto_get tree dflt key
        = resolve proto_get dflt key VUndefined)
  /\ (forall k rest,
        split_dots key = k :: rest ->
        assoc k (own_copied (Object_assign tree)) = None ->
        inherited proto_get (Object_assign tree) k = VUndefined ->
        resolveSetting proto_get tree dflt key
        = resolve proto_get dflt key VUndefined).
Proof.
  split; [|split; [|split]].
  - unfold resolveSetting. apply resolve_fallback_when_undefined.
  - intros x H Hhd Hx. unfold resolveSetting.
    now rewrite (resolve_present proto_get _ _ _ _ H Hhd), Hx.
  - intros k0 found k rest u Hsplit Hk0 Hfound Habsent Hnone.
    unfold resolveSetting.
    exact (resolve_absent_below proto_get _ _ _ _ _ _ _ _
             Hsplit Hk0 Hfound Habsent Hnone).
  - intros k rest Hsplit Hown Hnone. unfold resolveSetting.
    exact (resolve_absent_top proto_get _ _ _ _ _ Hsplit Hown Hnone).
Qed.

(** X1 on trees: a stored theme hides the default one; a missing icon set
    comes from the defaults, and so does everything when the settings are
    empty. *)
Lemma resolveSetting_layers_witness :
  resolveSetting ecma_proto_get
    (VObj [("desktop", VObj [("theme", VStr "dark")])])
    (VObj [("desktop", VObj [("theme", VStr "default");
                             ("icons", VStr "gnome")])])
    "desktop.theme"
  = VStr "dark"
  /\ resolveSetting ecma_proto_get
       (VObj [("desktop", VObj [("theme", VStr "dark")])])
       (VObj [("desktop", VObj [("theme", VStr "default");
                                ("icons", VStr "gnome")])])
       "desktop.icons"
     = VStr "gnome"
  /\ resolveSetting ecma_proto_get (VObj [])
       (VObj [("desktop", VObj [("theme", VStr "default")])])
       "desktop.theme"
     = VStr "default".
Proof.
  split; [|split].
  - apply (proj1 (proj2 (resolveSetting_layers ecma_proto_get _ _
                           "desktop.theme")));
      [reflexivity | discriminate | reflexivity].
  - rewrite (proj1 (proj2 (proj2 (resolveSetting_layers ecma_proto_get _ _
                                    "desktop.icons")))
               "desktop" [] "icons" [] (VObj [("theme", VStr "dark")]));
      [reflexivity | reflexivity | discriminate | reflexivity | reflexivity
      | reflexivity].
  - rewrite (proj2 (proj2 (proj2 (resolveSetting_layers ecma_proto_get _ _
                                    "desktop.theme")))
               "desktop" ["theme"]);
      reflexivity.
Defined.

(** X2.  After an update of an item's path with a scalar, the value
    [renderSections] hands to the item is the stored value, whatever the
    defaults and the item's [defaultValue] are. *)
Theorem shown_value_after_update (proto_get : kind -> string -> value)
  (c : copy) (st : ViewState) (i : item) (val : value) :
  no_proto_segment (split_dots (i_path i)) = true ->
  is_scalar val = true ->
  shown_value proto_get c (updated c st (i_path i) val) i
  = leaf_value c (i_path i) val.
Proof.
  intros Hproto Hscalar. unfold shown_value, resolveSetting.
  rewrite settings_updated.
  rewrite (setPath_scalar_read_back proto_get c _ _ _ _ Hproto Hscalar).
  pose proof (scalar_not_undefined _
                (is_scalar_leaf_value c (i_path i) val Hscalar)) as Hdef.
  destruct c; [reflexivity | now rewrite Hdef].
Qed.

(** X2 for the font colour style, whose [defaultValue] is ['system']. *)
Lemma shown_value_after_update_witness :
  shown_value ecma_proto_get part_000
    (updated part_000 (editing (VObj []))
       "desktop.iconview.fontColorStyle" (VStr "invert"))
    {| i_label := "Font color style";
       i_path := "desktop.iconview.fontColorStyle";
       i_type := "select"; i_transformValue := None;
       i_dialog := None; i_choices := Some (Fixed font_color_style_choices);
       i_defaultValue := VStr "system" |}
  = VStr "invert".
Proof.
  exact (shown_value_after_update ecma_proto_get part_000 (editing (VObj []))
           {| i_label := "Font color style";
              i_path := "desktop.iconview.fontColorStyle";
              i_type := "select"; i_transformValue := None;
              i_dialog := None;
              i_choices := Some (Fixed font_color_style_choices);
              i_defaultValue := VStr "system" |}
           (VStr "invert") eq_refl eq_refl).
Defined.

(** ** The value an Image item shows *)

Lemma truthy_has_kind v : truthy v = true -> kind_of v <> None.
Proof. destruct v; simpl; intros H; discriminate. Qed.

Lemma get_total proto_get v k :
  kind_of v <> None -> exists x, get proto_get v k = Some x.
Proof.
  unfold get. destruct (kind_of v); [intros _ | congruence]. now eexists.
Qed.

Lemma transformValue_src_defined proto_get v :
  exists r, transformValue_src proto_get v = Some r.
Proof.
  unfold transformValue_src. destruct (truthy v) eqn:E; [|now eexists].
  destruct v; try (apply get_total; discriminate); now eexists.
Qed.

(** X3.  [transformValue] of the Image item never raises: the test on the
    value keeps [value.path] away from [undefined] and [null].  A string and
    a falsy value are shown as they are, a file object as its [path], and
    what it gives for a string it gives again. *)
Theorem transformValue_src_total (proto_get : kind -> string -> value)
  (v : value) :
  (exists r, transformValue_src proto_get v = Some r)
  /\ (forall s, transformValue_src proto_get (VStr s) = Some (VStr s))
  /\ (truthy v = false -> transformValue_src proto_get v = Some v)
  /\ (forall props p,
        assoc "path" props = Some p ->
        transformValue_src proto_get (VObj props) = Some p)
  /\ (forall props,
        assoc "path" props = None ->
        transformValue_src proto_get (VObj props)
        = Some (proto_get KObject "path")).
Proof.
  split; [apply transformValue_src_defined|].
  split; [intros s; unfold transformValue_src; now destruct (truthy (VStr s))|].
  split; [intros H; unfold transformValue_src; now rewrite H|].
  split.
  - intros props p H. unfold transformValue_src. simpl.
    now apply get_own_key.
  - intros props H. unfold transformValue_src, get, own. simpl.
    now rewrite H.
Qed.

(** ** Segments *)

(** X15.  The segments of a key: there is at least one, none has a dot in
    it, joined by dots they give the key back, and so two keys with the same
    segments are the same key. *)
Theorem split_dots_segments (key : string) :
  split_dots key <> []
  /\ forallb dotless (split_dots key) = true
  /\ join_dots (split_dots key) = key
  /\ (forall key', split_dots key = split_dots key' -> key = key').
Proof.
  split; [apply split_dots_not_nil|].
  split; [apply split_dots_dotless|].
  split; [apply split_dots_join|].
  intros key' H. rewrite <- (split_dots_join key), <- (split_dots_join key').
  now rewrite H.
Qed.

(** ** Updates one after the other *)

Lemma disjoint_paths_sym a b : disjoint_paths a b = disjoint_paths b a.
Proof. unfold disjoint_paths. apply andb_comm. Qed.

Lemma setPath_scalar_present c tree path val :
  no_proto_segment (split_dots path) = true ->
  is_scalar val = true ->
  lookup_path (setPath c tree path val) (split_dots path)
  = Some (leaf_value c path val).
Proof.
  intros Hproto Hscalar. unfold setPath.
  rewrite (merge_skeleton_lookup _ _ tree (split_dots_not_nil path) Hproto).
  f_equal. apply merge_replaces_by_source, scalar_not_mapping.
  now apply is_scalar_leaf_value.
Qed.

(** X6.  Two updates with scalars at disjoint paths, one after the other:
    both paths then resolve to what was stored at them. *)
Theorem updates_on_disjoint_paths (proto_get : kind -> string -> value)
  (c : copy) (st : ViewState) (path1 : string) (val1 : value)
  (path2 : string) (val2 fb : value) :
  no_proto_segment (split_dots path1) = true ->
  no_proto_segment (split_dots path2) = true ->
  is_scalar val1 = true ->
  is_scalar val2 = true ->
  disjoint_paths (split_dots path1) (split_dots path2) = true ->
  resolve proto_get
    (settings (updated c (updated c st path1 val1) path2 val2)) path1 fb
  = leaf_value c path1 val1
  /\ resolve proto_get
       (settings (updated c (updated c st path1 val1) path2 val2)) path2 fb
     = leaf_value c path2 val2.
Proof.
  intros Hp1 Hp2 Hs1 Hs2 Hdis. rewrite !settings_updated. split.
  - pose proof (setPath_scalar_present c (settings st) path1 val1 Hp1 Hs1)
      as Hthere.
    rewrite disjoint_paths_sym in Hdis.
    rewrite (setPath_frame proto_get c _ path2 val2 path1 fb _ Hdis Hthere).
    now apply setPath_scalar_read_back.
  - now apply setPath_scalar_read_back.
Qed.

(** X6 for the style and the colour of the background. *)
Lemma updates_on_disjoint_paths_witness :
  resolve ecma_proto_get
    (settings (updated part_000
                 (updated part_000 fresh "desktop.background.style"
                    (VStr "cover"))
                 "desktop.background.color" (VStr "#fff")))
    "desktop.background.style" VNull
  = VStr "cover".
Proof.
  exact (proj1 (updates_on_disjoint_paths ecma_proto_get part_000 fresh
                  "desktop.background.style" (VStr "cover")
                  "desktop.background.color" (VStr "#fff") VNull
                  eq_refl eq_refl eq_refl eq_refl eq_refl)).
Defined.

Lemma assign_assign props k x y :
  assign (assign props k x) k y = assign props k y.
Proof.
  induction props as [|[k0 z] rest IH]; simpl.
  - now rewrite String.eqb_refl.
  - destruct (k =? k0) eqn:E; simpl.
    + now rewrite String.eqb_refl.
    + now rewrite E, IH.
Qed.

Lemma merged_entry_assign tprops k e sub :
  merged_entry (assign tprops k e) k sub = merge e sub.
Proof. unfold merged_entry. now rewrite assoc_assign_eq. Qed.

Lemma merge_skeleton_twice leaf :
  is_mapping leaf = false ->
  forall segs tree,
    merge (merge tree (skeleton segs leaf)) (skeleton segs leaf)
    = merge tree (skeleton segs leaf).
Proof.
  intros Hleaf.
  assert (Hempty : forall tree,
             merge (merge tree (VObj [])) (VObj []) = merge tree (VObj [])).
  { intros tree. now destruct tree. }
  induction segs as [|k rest IH]; intros tree; [apply Hempty|].
  cbn [skeleton]. destruct (k =? "__proto__"); [apply Hempty|].
  set (sub := match rest with [] => leaf | _ :: _ => skeleton rest leaf end).
  assert (Hsub : forall t, merge (merge t sub) sub = merge t sub).
  { intros t. subst sub. destruct rest as [|k2 rest']; [|apply IH].
    now rewrite !(merge_replaces_by_source _ leaf Hleaf). }
  assert (Hself : merge sub sub = sub).
  { specialize (Hsub VUndefined).
    now rewrite merge_undefined_target in Hsub. }
  destruct (is_mapping tree) eqn:Hm.
  2:{ rewrite (merge_replaces_target tree _ Hm), merge_single.
      unfold merged_entry. simpl. now rewrite String.eqb_refl, Hself. }
  destruct tree as [| | | | | |tprops|]; try discriminate Hm.
  rewrite !merge_single. f_equal.
  rewrite merged_entry_assign, assign_assign. f_equal.
  unfold merged_entry.
  destruct (assoc k tprops); [apply Hsub | exact Hself].
Qed.

Lemma updated_fields c st path val :
  updated c st path val
  = {| loading := loading st; locales := locales st; themes := themes st;
       defaults := defaults st;
       settings := setPath c (settings st) path val |}.
Proof.
  unfold updated, update, merge_state. rewrite resolveNewSetting_settings.
  reflexivity.
Qed.

(** X7.  An update is idempotent: the same value written to the same path a
    second time (a mapping apart) leaves the state as the first write left
    it. *)
Theorem update_idempotent (c : copy) (st : ViewState) (path : string)
  (val : value) :
  is_mapping (leaf_value c path val) = false ->
  updated c (updated c st path val) path val = updated c st path val.
Proof.
  intros Hleaf. rewrite !updated_fields. cbn [loading locales themes defaults
                                                settings].
  f_equal. unfold setPath. now apply merge_skeleton_twice.
Qed.

(** X7 for a theme picked twice. *)
Lemma update_idempotent_witness :
  updated index_js (updated index_js fresh "desktop.theme" (VStr "dark"))
    "desktop.theme" (VStr "dark")
  = updated index_js fresh "desktop.theme" (VStr "dark").
Proof.
  exact (update_idempotent index_js fresh "desktop.theme" (VStr "dark")
           eq_refl).
Defined.

(** ** The sections as shipped *)

Lemma all_or_fault_map {A B : Type} (f : A -> option B) (l : list A) :
  (forall x, In x l -> exists y, f x = Some y) ->
  exists ys, all_or_fault (map f l) = Some ys
             /\ List.length ys = List.length l.
Proof.
  induction l as [|x rest IH]; intros H; simpl.
  - now exists [].
  - destruct (H x (or_introl eq_refl)) as [y ->].
    destruct IH as [ys [-> Hlen]]; [intros z Hz; apply H; now right|].
    exists (y :: ys). simpl. now rewrite Hlen.
Qed.

Section Shipped.

Variable proto_get : kind -> string -> value.

Lemma shipped_item_renders c st i :
  kind_of (themes st) <> None ->
  In i (items proto_get c) ->
  exists field, render_item proto_get c st i = Some field.
Proof.
  intros Hthemes Hin.
  assert (Hget : forall k, exists x, get proto_get (themes st) k = Some x)
    by (intros k; now apply get_total).
  destruct (Hget "styles") as [styles Hstyles].
  destruct (Hget "icons") as [icons Hicons].
  destruct (Hget "sounds") as [sounds Hsounds].
  destruct c; simpl in Hin;
    repeat (destruct Hin as [<- | Hin]);
    try contradiction;
    unfold render_item, getValue, choices_of; cbn;
    rewrite ?Hstyles, ?Hicons, ?Hsounds;
    try (now eexists);
    match goal with
    | |- context [transformValue_src proto_get ?v] =>
        destruct (transformValue_src_defined proto_get v) as [r ->]
    end; now eexists.
Qed.

End Shipped.

Lemma all_sections_render {A : Type} (render : item -> option A) :
  forall secs,
    (forall i, In i (flat_map s_items secs) -> exists f, render i = Some f) ->
    exists fields,
      all_or_fault
        (map (fun s => all_or_fault (map render (s_items s))) secs)
      = Some fields
      /\ List.length fields = List.length secs
      /\ List.length (List.concat fields)
         = List.length (flat_map s_items secs).
Proof.
  induction secs as [|s rest IH]; intros H.
  - now exists [].
  - destruct (all_or_fault_map render (s_items s)) as [ys [Hys Hlen]].
    { intros x Hx. apply H. simpl. apply in_or_app. now left. }
    destruct IH as [fields [Hf [Hl Hc]]].
    { intros x Hx. apply H. simpl. apply in_or_app. now right. }
    exists (ys :: fields). cbn [map all_or_fault]. rewrite Hys, Hf.
    split; [reflexivity|]. split; [simpl; now rewrite Hl|].
    cbn [List.concat flat_map]. now rewrite !length_app, Hlen, Hc.
Qed.

(** X4.  With the sections as shipped, [renderSections] raises in no state
    whose [themes] is an object: every item has a registered type and the
    parameter its field calls, and the field is built for each item of each
    section. *)
Theorem renderSections_never_faults (proto_get : kind -> string -> value)
  (c : copy) (st : ViewState) :
  kind_of (themes st) <> None ->
  exists fields,
    renderSections proto_get c st = Some fields
    /\ List.length fields = List.length (sections proto_get c)
    /\ List.length (List.concat fields) = List.length (items proto_get c).
Proof.
  intros Hthemes. unfold renderSections, items.
  apply all_sections_render. intros i Hi.
  now apply shipped_item_renders.
Qed.

(** X4 on the state of a window just opened, with no themes installed. *)
Lemma renderSections_never_faults_witness :
  exists fields,
    renderSections ecma_proto_get part_000
      (initialState (VObj [])
         (getThemes (fun title => title) [] part_000)
         (VObj []) (VObj []) (VObj []) (VObj [])) = Some fields
    /\ List.length fields = 4
    /\ List.length (List.concat fields) = 10.
Proof.
  refine (renderSections_never_faults ecma_proto_get part_000
            (initialState (VObj [])
               (getThemes (fun title => title) [] part_000)
               (VObj []) (VObj []) (VObj []) (VObj [])) _).
  discriminate.
Defined.





(** ** Dialogs *)

(** X14.  A dialog closed with any button but ['ok'] changes nothing.  The
    file dialog closed with ['ok'] on a file object stores it, and the Image
    item then shows the [path] of that file, whatever was stored before; the
    colour dialog closed with ['ok'] stores the [hex] of the colour, which is
    then read back.  No dialog touches [loading], the saves in flight or the
    calls made. *)
Theorem dialog_updates_on_ok (proto_get : kind -> string -> value)
  (c : copy) (w : world) :
  (forall d path btn val,
      btn <> "ok" -> dialog_closed proto_get c d path btn val w = Some w)
  /\ (forall fprops p fb,
        NoDup (map fst fprops) ->
        assoc "path" fprops = Some (VStr p) ->
        exists w',
          dialog_closed proto_get c file_dialog "desktop.background.src" "ok"
            (VObj fprops) w = Some w'
          /\ transformValue_src proto_get
               (resolve proto_get (settings (state w'))
                  "desktop.background.src" fb)
             = Some (VStr p))
  /\ (forall path props h fb,
        no_proto_segment (split_dots path) = true ->
        path <> "desktop.iconview.enabled" ->
        assoc "hex" props = Some (VStr h) ->
        exists w',
          dialog_closed proto_get c color_dialog path "ok" (VObj props) w
          = Some w'
          /\ resolve proto_get (settings (state w')) path fb = VStr h)
  /\ (forall d path btn val w',
        dialog_closed proto_get c d path btn val w = Some w' ->
        loading (state w') = loading (state w)
        /\ in_flight w' = in_flight w
        /\ trace w' = trace w).
Proof.
  split; [|split; [|split]].
  - intros d path btn val Hne. unfold dialog_closed.
    apply String.eqb_neq in Hne. now rewrite Hne.
  - intros fprops p fb Hnd Hpath. eexists. split; [reflexivity|].
    cbn [act state]. fold (updated c (state w) "desktop.background.src"
                             (VObj fprops)).
    rewrite settings_updated.
    rewrite (setPath_read_back proto_get c _ "desktop.background.src"
               (VObj fprops) fb eq_refl).
    rewrite (leaf_value_plain c "desktop.background.src" (VObj fprops))
      by (right; discriminate).
    cbn [is_undefined].
    destruct (is_mapping (prior (settings (state w))
                            (split_dots "desktop.background.src"))) eqn:Hm.
    + destruct (prior (settings (state w))
                  (split_dots "desktop.background.src"))
        as [| | | | | |tprops|]; try discriminate Hm.
      rewrite merge_objects. unfold transformValue_src. cbn [truthy].
      apply get_own_key. rewrite merge_each_assoc.
      rewrite (assoc_rev_nodup _ _ Hnd), Hpath. f_equal.
      unfold merged_entry. now destruct (assoc "path" tprops).
    + rewrite (merge_replaces_target _ _ Hm).
      unfold transformValue_src. cbn [truthy]. now apply get_own_key.
  - intros path props h fb Hproto Hne Hhex. unfold dialog_closed.
    rewrite String.eqb_refl, (get_own_key proto_get _ _ _ Hhex).
    eexists. split; [reflexivity|]. cbn [act state].
    fold (updated c (state w) path (VStr h)). rewrite settings_updated.
    rewrite (setPath_scalar_read_back proto_get c _ path (VStr h) fb
               Hproto eq_refl).
    apply leaf_value_plain. now right.
  - intros d path btn val w' H. unfold dialog_closed in H.
    destruct (btn =? "ok").
    + destruct d.
      * injection H as <-. now repeat split.
      * destruct (get proto_get val "hex"); [|discriminate].
        injection H as <-. now repeat split.
    + injection H as <-. now repeat split.
Qed.

(** X14 on a window just opened: the file picked is the one shown, and a
    cancelled dialog leaves the window as it was. *)
Lemma dialog_updates_on_ok_witness :
  dialog_closed ecma_proto_get part_000 color_dialog
    "desktop.background.color" "cancel" (VObj [("hex", VStr "#fff")])
    (start fresh)
  = Some (start fresh)
  /\ exists w',
       dialog_closed ecma_proto_get part_000 file_dialog
         "desktop.background.src" "ok"
         (VObj [("filename", VStr "a.png"); ("path", VStr "home:/a.png")])
         (start fresh) = Some w'
       /\ transformValue_src ecma_proto_get
            (resolve ecma_proto_get (settings (state w'))
               "desktop.background.src" VNull)
          = Some (VStr "home:/a.png").
Proof.
  split.
  - apply (proj1 (dialog_updates_on_ok ecma_proto_get part_000
                    (start fresh))).
    discriminate.
  - apply (proj1 (proj2 (dialog_updates_on_ok ecma_proto_get part_000
                           (start fresh)))).
    + repeat constructor; simpl; intuition discriminate.
    + reflexivity.
Defined.

(** ** The working tree and the save lifecycle from the start *)

Lemma skeleton_is_object segs leaf : exists sprops, skeleton segs leaf = VObj sprops.
Proof.
  destruct segs as [|k rest]; simpl; [now eexists|].
  destruct (k =? "__proto__"); now eexists.
Qed.

Lemma merge_each_keeps_key tprops k sprops dest :
  assoc k dest <> None ->
  assoc k (merge_each merge tprops sprops dest) <> None.
Proof.
  intros H. rewrite merge_each_assoc.
  now destruct (assoc k (rev sprops)).
Qed.

Section FromTheStart.

Variable proto_get : kind -> string -> value.

Lemma setSettings_of_object props :
  setSettings proto_get (VObj props)
  = Some [SettingsSet "osjs/desktop"
            (match assoc "desktop" props with
             | Some d => d
             | None => proto_get KObject "desktop"
             end);
          SettingsSet "osjs/locale"
            (match assoc "locale" props with
             | Some l => l
             | None => proto_get KObject "locale"
             end);
          SettingsSave].
Proof. reflexivity. Qed.

Lemma step_well_formed c w e w' :
  well_formed w -> step proto_get c w e = Some w' -> well_formed w'.
Proof.
  intros [[props [Hs [Hd Hl]]] Hn] Hstep. destruct e; simpl in Hstep.
  - injection Hstep as <-. unfold save.
    destruct (loading (state w)) eqn:Hload.
    + split; [now exists props | now rewrite Hload].
    + rewrite Hs, setSettings_of_object. split.
      * exists props. now repeat split.
      * simpl. now rewrite Hn.
  - injection Hstep as <-. split; [|exact Hn].
    cbn [act state]. fold (updated c (state w) path val).
    rewrite settings_updated, Hs. unfold setPath.
    destruct (skeleton_is_object (split_dots path) (leaf_value c path val))
      as [sprops ->].
    rewrite merge_objects. eexists. split; [reflexivity|].
    split; now apply merge_each_keeps_key.
  - injection Hstep as <-. split; [|exact Hn].
    eexists. split; [reflexivity|]. split; discriminate.
  - destruct (settled_state _ _ _ Hstep) as [Hst Hin]. split.
    + rewrite Hst. now exists props.
    + rewrite Hst. simpl. destruct (loading (state w)); lia.
  - destruct (settled_state _ _ _ Hstep) as [Hst Hin]. split.
    + rewrite Hst. now exists props.
    + rewrite Hst. simpl. destruct (loading (state w)); lia.
Qed.

Lemma run_well_formed c : forall events w w',
  well_formed w -> run proto_get c w events = Some w' -> well_formed w'.
Proof.
  induction events as [|e rest IH]; intros w w' Hw Hrun; simpl in Hrun.
  - now injection Hrun as <-.
  - destruct (step proto_get c w e) as [w1|] eqn:E; [|discriminate].
    exact (IH _ _ (step_well_formed _ _ _ _ Hw E) Hrun).
Qed.

Lemma start_well_formed l t dd ld d lo :
  well_formed (start (initialState l t dd ld d lo)).
Proof.
  split; [|reflexivity]. eexists. split; [reflexivity|].
  split; discriminate.
Qed.

End FromTheStart.

(** X8.  From [initialState], whatever the events, the working tree stays an
    object that has the keys [desktop] and [locale]; so reading them in
    [setSettings] never raises, and [loading] is set exactly when one save is
    in flight: the window is never left loading with no save to clear it. *)
Theorem loading_tracks_save (proto_get : kind -> string -> value) (c : copy)
  (locales0 themes0 desktop_defaults locale_defaults desktop locale : value)
  (events : list event) (w : world) :
  run proto_get c
    (start (initialState locales0 themes0 desktop_defaults locale_defaults
              desktop locale)) events = Some w ->
  is_mapping (settings (state w)) = true
  /\ lookup_path (settings (state w)) ["desktop"] <> None
  /\ lookup_path (settings (state w)) ["locale"] <> None
  /\ setSettings proto_get (settings (state w)) <> None
  /\ (loading (state w) = true <-> in_flight w = 1%nat).
Proof.
  intros Hrun.
  destruct (run_well_formed proto_get c events _ _
              (start_well_formed _ _ _ _ _ _) Hrun)
    as [[props [Hs [Hd Hl]]] Hn].
  rewrite Hs. split; [reflexivity|].
  split; [simpl; now destruct (assoc "desktop" props)|].
  split; [simpl; now destruct (assoc "locale" props)|].
  split; [now rewrite setSettings_of_object|].
  rewrite Hn. destruct (loading (state w)); split; congruence.
Qed.

(** X8 after an edit, a save, its rejection and a second save. *)
Lemma loading_tracks_save_witness :
  exists w,
    run ecma_proto_get part_000 (start fresh)
      [CallUpdate "desktop" (VStr "x"); CallSave;
       SaveRejected (VStr "offline"); CallSave] = Some w
    /\ loading (state w) = true
    /\ in_flight w = 1%nat.
Proof.
  eexists. split; [reflexivity|].
  pose proof (loading_tracks_save ecma_proto_get part_000
                (VObj []) (VObj []) (VObj []) (VObj []) (VObj []) (VObj [])
                [CallUpdate "desktop" (VStr "x"); CallSave;
                 SaveRejected (VStr "offline"); CallSave] _ eq_refl)
    as [_ [_ [_ [_ Hiff]]]].
  split; [reflexivity | now apply Hiff].
Defined.

(** X9.  A save that starts, in any state reached from [initialState],
    sends the settings service exactly the working tree: the value under
    [desktop], the value under [locale], then the flush. *)
Theorem save_flushes_working_tree (proto_get : kind -> string -> value)
  (c : copy)
  (locales0 themes0 desktop_defaults locale_defaults desktop locale : value)
  (events : list event) (w : world) :
  run proto_get c
    (start (initialState locales0 themes0 desktop_defaults locale_defaults
              desktop locale)) events = Some w ->
  loading (state w) = false ->
  trace (save proto_get w)
  = (trace w
     ++ [SettingsSet "osjs/desktop" (prior (settings (state w)) ["desktop"]);
         SettingsSet "osjs/locale" (prior (settings (state w)) ["locale"]);
         SettingsSave])%list
  /\ in_flight (save proto_get w) = 1%nat
  /\ settings (state (save proto_get w)) = settings (state w).
Proof.
  intros Hrun Hload.
  destruct (run_well_formed proto_get c events _ _
              (start_well_formed _ _ _ _ _ _) Hrun)
    as [[props [Hs [Hd Hl]]] Hn].
  rewrite Hload in Hn.
  rewrite (save_started proto_get w _ Hload
             (eq_trans (f_equal (setSettings proto_get) Hs)
                (setSettings_of_object proto_get props))).
  cbn [trace in_flight state merge_state settings setLoading p_settings
       or_keep].
  rewrite Hs, Hn. unfold prior. simpl.
  destruct (assoc "desktop" props); [|congruence].
  destruct (assoc "locale" props); [|congruence].
  now repeat split.
Qed.

(** X9 for a theme picked and saved. *)
Lemma save_flushes_working_tree_witness :
  trace (save ecma_proto_get
           (act (update part_000 "desktop.theme" (VStr "dark") fresh)
              (start fresh)))
  = [SettingsSet "osjs/desktop" (VObj [("theme", VStr "dark")]);
     SettingsSet "osjs/locale" (VObj []);
     SettingsSave].
Proof.
  rewrite (proj1 (save_flushes_working_tree ecma_proto_get part_000
                    (VObj []) (VObj []) (VObj []) (VObj []) (VObj [])
                    (VObj [])
                    [CallUpdate "desktop.theme" (VStr "dark")]
                    (act (update part_000 "desktop.theme" (VStr "dark") fresh)
                       (start fresh))
                    eq_refl eq_refl)).
  reflexivity.
Defined.

(** ** Refresh *)

Lemma refresh_after_update c path val desktop locale w :
  act (refresh desktop locale) (act (update c path val (state w)) w)
  = act (refresh desktop locale) w.
Proof. reflexivity. Qed.

(** X10.  A refresh discards the edits not yet saved: after any run of
    updates, it leaves the application where a refresh alone would have, with
    the working tree just fetched; and it changes neither [loading] nor the
    saves in flight nor the calls made. *)
Theorem refresh_discards_edits (proto_get : kind -> string -> value)
  (c : copy) (edits : list event) (desktop locale : value) (w : world) :
  forallb is_update_event edits = true ->
  run proto_get c w (edits ++ [CallRefresh desktop locale])
  = Some (act (refresh desktop locale) w)
  /\ settings (state (act (refresh desktop locale) w))
     = getSettings desktop locale
  /\ loading (state (act (refresh desktop locale) w)) = loading (state w)
  /\ in_flight (act (refresh desktop locale) w) = in_flight w
  /\ trace (act (refresh desktop locale) w) = trace w.
Proof.
  intros Hedits. split; [|now repeat split].
  revert w. induction edits as [|e rest IH]; intros w; [reflexivity|].
  simpl in Hedits. apply andb_true_iff in Hedits as [He Hrest].
  destruct e; try discriminate He.
  cbn [app run step]. rewrite (IH Hrest).
  now rewrite refresh_after_update.
Qed.

(** X10 for two edits followed by a refresh. *)
Lemma refresh_discards_edits_witness :
  run ecma_proto_get part_000 (start fresh)
    [CallUpdate "desktop.theme" (VStr "dark");
     CallUpdate "locale.language" (VStr "nb_NO");
     CallRefresh (VObj [("theme", VStr "light")]) (VObj [])]
  = Some (act (refresh (VObj [("theme", VStr "light")]) (VObj []))
            (start fresh)).
Proof.
  exact (proj1 (refresh_discards_edits ecma_proto_get part_000
                  [CallUpdate "desktop.theme" (VStr "dark");
                   CallUpdate "locale.language" (VStr "nb_NO")]
                  (VObj [("theme", VStr "light")]) (VObj []) (start fresh)
                  eq_refl)).
Defined.

(** ** The calls made *)

Lemma count_app p (a b : list effect) :
  count p (a ++ b) = (count p a + count p b)%nat.
Proof. unfold count. now rewrite filter_app, length_app. Qed.

Section Accounting.

Variable proto_get : kind -> string -> value.

Lemma setSettings_one_flush tree calls :
  setSettings proto_get tree = Some calls ->
  count is_flush calls = 1%nat
  /\ count is_applied calls = 0%nat
  /\ count is_reported calls = 0%nat.
Proof.
  unfold setSettings.
  destruct (get proto_get tree "desktop"); [|discriminate].
  destruct (get proto_get tree "locale"); [|discriminate].
  intros H. injection H as <-. now repeat split.
Qed.

Lemma step_counts c w e w' :
  step proto_get c w e = Some w' -> accounted w [e] w'.
Proof.
  unfold accounted, count_events. intros Hstep.
  destruct e; simpl in Hstep; cbn [List.filter is_fulfilled is_rejected
                                     List.length].
  - injection Hstep as <-. unfold save.
    destruct (loading (state w)); [repeat split; lia|].
    destruct (setSettings proto_get (settings (state w))) as [calls|] eqn:E;
      [|simpl; repeat split; lia].
    destruct (setSettings_one_flush _ _ E) as [Hf [Ha Hr]].
    cbn [trace in_flight act]. rewrite !count_app, Hf, Ha, Hr.
    repeat split; lia.
  - injection Hstep as <-. simpl. repeat split; lia.
  - injection Hstep as <-. simpl. repeat split; lia.
  - unfold settled in Hstep. destruct (in_flight w) as [|n] eqn:En;
      [discriminate|]. injection Hstep as <-.
    cbn [trace in_flight act]. rewrite !count_app. cbn.
    repeat split; lia.
  - unfold settled in Hstep. destruct (in_flight w) as [|n] eqn:En;
      [discriminate|]. injection Hstep as <-.
    cbn [trace in_flight act]. rewrite !count_app. cbn.
    repeat split; lia.
Qed.

Lemma run_counts c : forall events w w',
  run proto_get c w events = Some w' -> accounted w events w'.
Proof.
  induction events as [|e rest IH]; intros w w' Hrun; simpl in Hrun.
  - injection Hrun as <-. unfold accounted, count_events. simpl.
    repeat split; lia.
  - destruct (step proto_get c w e) as [w1|] eqn:E; [|discriminate].
    destruct (step_counts _ _ _ _ E) as [H1 [H2 H3]].
    destruct (IH _ _ Hrun) as [G1 [G2 G3]].
    unfold accounted, count_events in *.
    cbn [List.filter] in *.
    destruct (is_fulfilled e), (is_rejected e);
      cbn [List.length] in *; repeat split; lia.
Qed.

End Accounting.

(** X11.  Along every run from the start of the application, every flush of
    the settings service is either settled or still in flight;
    [applySettings] is called once for each fulfilled save and the error is
    reported once for each rejected one, and never otherwise. *)
Theorem calls_account_for_saves (proto_get : kind -> string -> value)
  (c : copy) (st : ViewState) (events : list event) (w : world) :
  run proto_get c (start st) events = Some w ->
  count is_flush (trace w)
  = (count is_applied (trace w) + count is_reported (trace w)
     + in_flight w)%nat
  /\ count is_applied (trace w) = count_events is_fulfilled events
  /\ count is_reported (trace w) = count_events is_rejected events.
Proof.
  intros Hrun. destruct (run_counts proto_get c _ _ _ Hrun) as [H1 [H2 H3]].
  cbn in H1, H2, H3. repeat split; lia.
Qed.

(** X11 on a run with a fulfilled and a rejected save. *)
Lemma calls_account_for_saves_witness :
  exists w,
    run ecma_proto_get part_000 (start fresh)
      [CallSave; SaveFulfilled; CallSave; SaveRejected (VStr "offline");
       CallSave] = Some w
    /\ count is_flush (trace w) = 3%nat
    /\ count is_applied (trace w) = 1%nat
    /\ count is_reported (trace w) = 1%nat.
Proof.
  eexists. split; [reflexivity|].
  pose proof (calls_account_for_saves ecma_proto_get part_000 fresh
                [CallSave; SaveFulfilled; CallSave;
                 SaveRejected (VStr "offline"); CallSave] _ eq_refl)
    as [H1 [H2 H3]].
  rewrite H1, H2, H3. now repeat split.
Defined.

(** ** Themes *)

Lemma assign_keys props k x k' :
  In k' (map fst (assign props k x)) <-> k' = k \/ In k' (map fst props).
Proof.
  induction props as [|[k0 y] rest IH]; simpl.
  - intuition congruence.
  - destruct (String.eqb_spec k k0) as [->|Hne]; simpl.
    + intuition congruence.
    + rewrite IH. intuition congruence.
Qed.

Lemma assign_nodup props k x :
  NoDup (map fst props) -> NoDup (map fst (assign props k x)).
Proof.
  induction props as [|[k0 y] rest IH]; simpl; intros Hnd.
  - repeat constructor. intros [].
  - inversion Hnd as [|? ? Hnotin Hrest]; subst.
    destruct (String.eqb_spec k k0) as [->|Hne]; simpl.
    + now constructor.
    + constructor; [|now apply IH].
      rewrite assign_keys. intros [->|Hin]; [congruence | contradiction].
Qed.

Lemma assign_fresh props k x :
  ~ In k (map fst props) -> assign props k x = (props ++ [(k, x)])%list.
Proof.
  induction props as [|[k0 y] rest IH]; simpl; intros Hnotin; [reflexivity|].
  destruct (String.eqb_spec k k0) as [->|Hne].
  - exfalso. apply Hnotin. now left.
  - rewrite IH; [reflexivity|]. intros Hin. apply Hnotin. now right.
Qed.

Lemma Object_assign_to_nodup source : forall target,
  NoDup (map fst target) -> NoDup (map fst (Object_assign_to target source)).
Proof.
  unfold Object_assign_to.
  induction source as [|[k v] rest IH]; intros target Hnd; [exact Hnd|].
  simpl. destruct (k =? "__proto__"); apply IH; [exact Hnd|].
  now apply assign_nodup.
Qed.

Lemma Object_assign_to_assoc name source : forall target,
  name <> "__proto__" ->
  NoDup (map fst source) ->
  assoc name (Object_assign_to target source)
  = match assoc name source with
    | Some x => Some x
    | None => assoc name target
    end.
Proof.
  unfold Object_assign_to.
  induction source as [|[k v] rest IH]; intros target Hname Hnd;
    [reflexivity|].
  simpl in Hnd. inversion Hnd as [|? ? Hnotin Hrest]; subst.
  cbn [fold_left fst snd assoc].
  destruct (String.eqb_spec name k) as [->|Hne].
  - apply String.eqb_neq in Hname. rewrite Hname.
    rewrite (IH _ (proj1 (String.eqb_neq _ _) Hname) Hrest).
    apply assoc_none_not_in in Hnotin. rewrite Hnotin.
    apply assoc_assign_eq.
  - destruct (k =? "__proto__"); rewrite (IH _ Hname Hrest);
      [reflexivity|].
    destruct (assoc name rest); [reflexivity|].
    now apply assoc_assign_neq.
Qed.

Lemma Object_assign_to_fresh source : forall target,
  NoDup (map fst (target ++ source)) ->
  ~ In "__proto__" (map fst source) ->
  Object_assign_to target source = (target ++ source)%list.
Proof.
  unfold Object_assign_to.
  induction source as [|[k v] rest IH]; intros target Hnd Hproto.
  - simpl. now rewrite app_nil_r.
  - cbn [fold_left fst snd].
    destruct (String.eqb_spec k "__proto__") as [->|_].
    { exfalso. apply Hproto. now left. }
    assert (Hfresh : ~ In k (map fst target)).
    { rewrite map_app in Hnd. simpl in Hnd.
      apply NoDup_remove_2 in Hnd. intros Hin. apply Hnd.
      apply in_or_app. now left. }
    rewrite (assign_fresh _ _ _ Hfresh).
    rewrite IH.
    + now rewrite <- app_assoc.
    + now rewrite <- app_assoc.
    + intros Hin. apply Hproto. now right.
Qed.

Lemma find_filter {A : Type} (f g : A -> bool) (l : list A) :
  find f (List.filter g l) = find (fun x => g x && f x) l.
Proof.
  induction l as [|x rest IH]; simpl; [reflexivity|].
  destruct (g x); simpl; [|exact IH].
  now destruct (f x).
Qed.

Section ThemeTables.

Variable translatableFlat : value -> value.

Lemma theme_reduce_nodup result pkg :
  NoDup (map fst (theme_reduce translatableFlat result pkg)).
Proof.
  unfold theme_reduce. apply Object_assign_to_nodup.
  repeat constructor. intros [].
Qed.

Lemma fold_theme_reduce_assoc name : forall l result,
  name <> "__proto__" ->
  NoDup (map fst result) ->
  assoc name (fold_left (theme_reduce translatableFlat) l result)
  = match assoc name result with
    | Some x => Some x
    | None =>
        option_map (fun pkg => translatableFlat (pkg_title pkg))
          (find (fun pkg => pkg_name pkg =? name) l)
    end.
Proof.
  induction l as [|pkg rest IH]; intros result Hname Hnd.
  - simpl. now destruct (assoc name result).
  - cbn [fold_left find].
    rewrite (IH _ Hname (theme_reduce_nodup result pkg)).
    unfold theme_reduce. rewrite (Object_assign_to_assoc _ _ _ Hname Hnd).
    destruct (assoc name result); [reflexivity|]. simpl.
    rewrite (String.eqb_sym (pkg_name pkg) name).
    now destruct (name =? pkg_name pkg).
Qed.

Lemma fold_theme_reduce_fresh : forall l result,
  NoDup (map pkg_name l ++ map fst result) ->
  ~ In "__proto__" (map pkg_name l) ->
  ~ In "__proto__" (map fst result) ->
  fold_left (theme_reduce translatableFlat) l result
  = (rev (map (theme_entry translatableFlat) l) ++ result)%list.
Proof.
  induction l as [|pkg rest IH]; intros result Hnd Hl Hr; [reflexivity|].
  cbn [fold_left map rev]. simpl in Hnd.
  assert (Hstep : theme_reduce translatableFlat result pkg
                  = theme_entry translatableFlat pkg :: result).
  { unfold theme_reduce. rewrite Object_assign_to_fresh; [reflexivity| |exact Hr].
    simpl. constructor.
    - apply NoDup_cons_iff in Hnd as [Hnotin _]. intros Hin. apply Hnotin.
      apply in_or_app. now right.
    - apply NoDup_cons_iff in Hnd as [_ Hnd].
      now apply NoDup_app_remove_l in Hnd. }
  rewrite Hstep, IH.
  - now rewrite <- app_assoc.
  - simpl. apply NoDup_cons_iff in Hnd as [Hnotin Hnd'].
    apply (Permutation_NoDup
             (l := pkg_name pkg :: (map pkg_name rest ++ map fst result))).
    + apply Permutation_middle.
    + now constructor.
  - intros Hin. apply Hl. now right.
  - simpl. intros [Heq|Hin]; [apply Hl; now left | now apply Hr].
Qed.

Lemma choice_label_theme_list name : forall l,
  choice_label name (map (theme_choice translatableFlat) l)
  = option_map (fun pkg => translatableFlat (pkg_title pkg))
      (find (fun pkg => pkg_name pkg =? name) l).
Proof.
  induction l as [|pkg rest IH]; [reflexivity|].
  cbn [map find]. unfold theme_choice at 1. cbn.
  destruct (pkg_name pkg =? name); [reflexivity | exact IH].
Qed.

End ThemeTables.

(** X12.  In [index.js] the table of a type maps a name to the title of the
    first package of that type with that name, and has no entry for a name
    no such package has: of two packages with one name the first is kept. *)
Theorem theme_table_first_wins (translatableFlat : value -> value)
  (packages : list package) (type name : string) :
  name <> "__proto__" ->
  assoc name (theme_table translatableFlat packages type)
  = option_map (fun pkg => translatableFlat (pkg_title pkg))
      (first_package packages type name).
Proof.
  intros Hname. unfold theme_table, getPackages, first_package.
  rewrite (fold_theme_reduce_assoc translatableFlat name _ [] Hname
             (NoDup_nil _)).
  cbn [assoc]. now rewrite find_filter.
Qed.

(** X12 for two themes of one name among other packages. *)
Lemma theme_table_first_wins_witness :
  assoc "Standard"
    (theme_table (fun title => title)
       [ {| pkg_name := "Files"; pkg_type := "application";
            pkg_title := VStr "File manager" |};
         {| pkg_name := "Standard"; pkg_type := "theme";
            pkg_title := VStr "Standard theme" |};
         {| pkg_name := "Standard"; pkg_type := "theme";
            pkg_title := VStr "Another" |} ]
       "theme")
  = Some (VStr "Standard theme").
Proof.
  rewrite (theme_table_first_wins (fun title => title) _ "theme" "Standard");
    [reflexivity | discriminate].
Defined.

(** X13.  In [part_000] the choice list of a type gives a name the title of
    the first package of that type with that name, so the two copies label
    every name alike. *)
Theorem theme_list_agrees (translatableFlat : value -> value)
  (packages : list package) (type name : string) :
  choice_label name (theme_list translatableFlat packages type)
  = option_map (fun pkg => translatableFlat (pkg_title pkg))
      (first_package packages type name)
  /\ (name <> "__proto__" ->
      choice_label name (theme_list translatableFlat packages type)
      = assoc name (theme_table translatableFlat packages type))
  /\ List.length (theme_list translatableFlat packages type)
     = List.length (List.filter (pkg_filter type) packages).
Proof.
  assert (Hlabel :
            choice_label name (theme_list translatableFlat packages type)
            = option_map (fun pkg => translatableFlat (pkg_title pkg))
                (first_package packages type name)).
  { unfold theme_list, getPackages, first_package.
    now rewrite choice_label_theme_list, find_filter. }
  split; [exact Hlabel|]. split.
  - intros Hname. rewrite Hlabel. symmetry.
    unfold theme_table, getPackages, first_package.
    rewrite (fold_theme_reduce_assoc translatableFlat name _ [] Hname
               (NoDup_nil _)).
    cbn [assoc]. now rewrite find_filter.
  - unfold theme_list, getPackages. apply length_map.
Qed.

(** X16.  In [index.js], when the packages of a type have distinct names,
    none of them [__proto__], the table lists them in the reverse of the
    order of the package service; and the table of sounds starts with the
    entry ['' -> 'None'] when no sound package has the empty name.  (Names
    that start with a digit are left out: a runtime enumerates the keys that
    are array indices first, which the insertion order of the model does not
    show.) *)
Theorem theme_table_reverses (translatableFlat : value -> value)
  (packages : list package) (type : string) :
  forallb (fun pkg => negb (starts_with_digit (pkg_name pkg)))
    (List.filter (pkg_filter type) packages) = true ->
  NoDup (map pkg_name (List.filter (pkg_filter type) packages)) ->
  ~ In "__proto__" (map pkg_name (List.filter (pkg_filter type) packages)) ->
  theme_table translatableFlat packages type
  = rev (map (theme_entry translatableFlat)
           (List.filter (pkg_filter type) packages))
  /\ (~ In "" (map pkg_name (List.filter (pkg_filter type) packages)) ->
      Object_assign_to [("", VStr "None")]
        (theme_table translatableFlat packages type)
      = ("", VStr "None")
        :: rev (map (theme_entry translatableFlat)
                  (List.filter (pkg_filter type) packages))).
Proof.
  intros _ Hnd Hproto.
  assert (Htable :
            theme_table translatableFlat packages type
            = rev (map (theme_entry translatableFlat)
                     (List.filter (pkg_filter type) packages))).
  { unfold theme_table, getPackages.
    rewrite fold_theme_reduce_fresh.
    - apply app_nil_r.
    - now rewrite app_nil_r.
    - exact Hproto.
    - intros []. }
  split; [exact Htable|].
  intros Hempty. rewrite Htable.
  assert (Hkeys : map fst (rev (map (theme_entry translatableFlat)
                                  (List.filter (pkg_filter type) packages)))
                  = rev (map pkg_name
                           (List.filter (pkg_filter type) packages))).
  { rewrite <- map_rev, map_map. unfold theme_entry. simpl.
    now rewrite map_rev. }
  rewrite Object_assign_to_fresh; [reflexivity| |].
  - simpl. rewrite Hkeys. constructor.
    + intros Hin. apply Hempty. now apply in_rev.
    + now apply NoDup_rev.
  - rewrite Hkeys. intros Hin. apply Hproto. now apply in_rev.
Qed.

(** X16 for two themes. *)
Lemma theme_table_reverses_witness :
  theme_table (fun title => title)
    [ {| pkg_name := "Standard"; pkg_type := "theme";
         pkg_title := VStr "Standard theme" |};
      {| pkg_name := "Dark"; pkg_type := "theme";
         pkg_title := VStr "Dark theme" |} ]
    "theme"
  = [("Dark", VStr "Dark theme"); ("Standard", VStr "Standard theme")].
Proof.
  refine (proj1 (theme_table_reverses (fun title => title)
                   [ {| pkg_name := "Standard"; pkg_type := "theme";
                        pkg_title := VStr "Standard theme" |};
                     {| pkg_name := "Dark"; pkg_type := "theme";
                        pkg_title := VStr "Dark theme" |} ]
                   "theme" _ _ _)).
  - reflexivity.
  - repeat constructor; simpl; intuition discriminate.
  - simpl. intuition discriminate.
Defined.

(** ** What no event changes *)

Section Fixed.

Variable proto_get : kind -> string -> value.

Lemma step_keeps_choices c w e w' :
  step proto_get c w e = Some w' ->
  themes (state w') = themes (state w)
  /\ locales (state w') = locales (state w)
  /\ defaults (state w') = defaults (state w).
Proof.
  intros Hstep. destruct e; simpl in Hstep.
  - injection Hstep as <-. unfold save.
    destruct (loading (state w)); [now repeat split|].
    destruct (setSettings proto_get (settings (state w)));
      now repeat split.
  - injection Hstep as <-. now repeat split.
  - injection Hstep as <-. now repeat split.
  - destruct (settled_state _ _ _ Hstep) as [-> _]. now repeat split.
  - destruct (settled_state _ _ _ Hstep) as [-> _]. now repeat split.
Qed.

Lemma run_keeps_choices c : forall events w w',
  run proto_get c w events = Some w' ->
  themes (state w') = themes (state w)
  /\ locales (state w') = locales (state w)
  /\ defaults (state w') = defaults (state w).
Proof.
  induction events as [|e rest IH]; intros w w' Hrun; simpl in Hrun.
  - injection Hrun as <-. now repeat split.
  - destruct (step proto_get c w e) as [w1|] eqn:E; [|discriminate].
    destruct (step_keeps_choices _ _ _ _ E) as [H1 [H2 H3]].
    destruct (IH _ _ Hrun) as [G1 [G2 G3]].
    repeat split; congruence.
Qed.

End Fixed.

(** X17.  No event changes the themes, the locales or the defaults: along
    every run the choices an item offers and the defaults a path falls back
    to are those of the start. *)
Theorem choices_fixed_by_events (proto_get : kind -> string -> value)
  (c : copy) (w : world) (events : list event) (w' : world) :
  run proto_get c w events = Some w' ->
  themes (state w') = themes (state w)
  /\ locales (state w') = locales (state w)
  /\ defaults (state w') = defaults (state w)
  /\ (forall i, choices_of proto_get i (state w')
                = choices_of proto_get i (state w))
  /\ (forall key, resolve proto_get (defaults (state w')) key VUndefined
                  = resolve proto_get (defaults (state w)) key VUndefined).
Proof.
  intros Hrun.
  destruct (run_keeps_choices proto_get c _ _ _ Hrun) as [Ht [Hl Hd]].
  repeat split; try assumption.
  - intros i. unfold choices_of. now rewrite Ht, Hl.
  - intros key. now rewrite Hd.
Qed.

(** X17 on a run with an edit, a refresh and a save. *)
Lemma choices_fixed_by_events_witness :
  exists w',
    run ecma_proto_get part_000 (start fresh)
      [CallUpdate "desktop.theme" (VStr "dark");
       CallRefresh (VObj []) (VObj []); CallSave; SaveFulfilled] = Some w'
    /\ themes (state w') = themes fresh.
Proof.
  eexists. split; [reflexivity|].
  exact (proj1 (choices_fixed_by_events ecma_proto_get part_000 (start fresh)
                  [CallUpdate "desktop.theme" (VStr "dark");
                   CallRefresh (VObj []) (VObj []); CallSave; SaveFulfilled]
                  _ eq_refl)).
Defined.
